(** * Provably-fair Backgammon verifier: a shallow embedding of [pkg/verifier]

    The Go package [verifier] re-derives every die roll of a game report from
    the revealed server seed and the two client seeds and compares it with the
    rolls the report records.  This development embeds the package
    ([verifier.go]) together with the parts of the Go standard library it
    calls ([crypto/sha256], [crypto/hmac], [encoding/hex], [encoding/binary],
    [strconv]) and proves the properties the specification states about it.

    Conventions.
    - A Go [byte] is a [Z] in [0, 256); a [[]byte] is a [list Z].
    - A Go [string] is a Rocq [string]: a sequence of 8-bit characters,
      indexed and compared byte by byte, as in Go.
    - A [uint32] is a [Z] reduced modulo 2^32 after every operation.
    - [int64] UIDs are [Z]; nothing the package does depends on the bound.
    - The only loop without a static bound is the rejection loop of
      [drawDie]; it takes a [fuel] and answers [Timeout] when it runs out. *)

From Stdlib Require Import ZArith String Ascii Bool Arith Lia List.
From Stdlib Require Import DecimalString DecimalZ.
Import ListNotations.

Local Open Scope Z_scope.

(** ** Bytes and strings *)

Definition byte_of_ascii (c : ascii) : Z := Z.of_N (N_of_ascii c).

(** Go's conversion [[]byte(s)]. *)
Definition bytes_of_string (s : string) : list Z :=
  map byte_of_ascii (list_ascii_of_string s).

Definition is_byte (b : Z) : Prop := 0 <= b < 256.

(** ** [crypto/sha256] *)

Module sha256.

Definition u32 (x : Z) : Z := x mod 2 ^ 32.

(** [bits.RotateLeft32 (x, -n)]: rotation to the right by [n]. *)
Definition rotr (n x : Z) : Z :=
  Z.lor (Z.shiftr x n) (u32 (Z.shiftl x (32 - n))).

(** [^x] on a [uint32]. *)
Definition not32 (x : Z) : Z := Z.lxor x 0xffffffff.

(** The round constants: the array [_K], indexed by the round. *)
Definition _K (i : nat) : Z :=
  match i with
  | 0%nat => 0x428a2f98
  | 1%nat => 0x71374491
  | 2%nat => 0xb5c0fbcf
  | 3%nat => 0xe9b5dba5
  | 4%nat => 0x3956c25b
  | 5%nat => 0x59f111f1
  | 6%nat => 0x923f82a4
  | 7%nat => 0xab1c5ed5
  | 8%nat => 0xd807aa98
  | 9%nat => 0x12835b01
  | 10%nat => 0x243185be
  | 11%nat => 0x550c7dc3
  | 12%nat => 0x72be5d74
  | 13%nat => 0x80deb1fe
  | 14%nat => 0x9bdc06a7
  | 15%nat => 0xc19bf174
  | 16%nat => 0xe49b69c1
  | 17%nat => 0xefbe4786
  | 18%nat => 0x0fc19dc6
  | 19%nat => 0x240ca1cc
  | 20%nat => 0x2de92c6f
  | 21%nat => 0x4a7484aa
  | 22%nat => 0x5cb0a9dc
  | 23%nat => 0x76f988da
  | 24%nat => 0x983e5152
  | 25%nat => 0xa831c66d
  | 26%nat => 0xb00327c8
  | 27%nat => 0xbf597fc7
  | 28%nat => 0xc6e00bf3
  | 29%nat => 0xd5a79147
  | 30%nat => 0x06ca6351
  | 31%nat => 0x14292967
  | 32%nat => 0x27b70a85
  | 33%nat => 0x2e1b2138
  | 34%nat => 0x4d2c6dfc
  | 35%nat => 0x53380d13
  | 36%nat => 0x650a7354
  | 37%nat => 0x766a0abb
  | 38%nat => 0x81c2c92e
  | 39%nat => 0x92722c85
  | 40%nat => 0xa2bfe8a1
  | 41%nat => 0xa81a664b
  | 42%nat => 0xc24b8b70
  | 43%nat => 0xc76c51a3
  | 44%nat => 0xd192e819
  | 45%nat => 0xd6990624
  | 46%nat => 0xf40e3585
  | 47%nat => 0x106aa070
  | 48%nat => 0x19a4c116
  | 49%nat => 0x1e376c08
  | 50%nat => 0x2748774c
  | 51%nat => 0x34b0bcb5
  | 52%nat => 0x391c0cb3
  | 53%nat => 0x4ed8aa4a
  | 54%nat => 0x5b9cca4f
  | 55%nat => 0x682e6ff3
  | 56%nat => 0x748f82ee
  | 57%nat => 0x78a5636f
  | 58%nat => 0x84c87814
  | 59%nat => 0x8cc70208
  | 60%nat => 0x90befffa
  | 61%nat => 0xa4506ceb
  | 62%nat => 0xbef9a3f7
  | _ => 0xc67178f2
  end.

(** The chaining value [dig.h]: eight 32-bit words. *)
Record digest : Type := mkDigest
  { h0 : Z; h1 : Z; h2 : Z; h3 : Z; h4 : Z; h5 : Z; h6 : Z; h7 : Z }.

Definition init : digest :=
  mkDigest 0x6a09e667 0xbb67ae85 0x3c6ef372 0xa54ff53a
           0x510e527f 0x9b05688c 0x1f83d9ab 0x5be0cd19.

(** [w[i] = p[j]<<24 | p[j+1]<<16 | p[j+2]<<8 | p[j+3]] for the sixteen
    words of one 64-byte chunk. *)
Fixpoint be_words (p : list Z) : list Z :=
  match p with
  | b0 :: b1 :: b2 :: b3 :: p' =>
      Z.lor (Z.lor (Z.lor (Z.shiftl b0 24) (Z.shiftl b1 16)) (Z.shiftl b2 8)) b3
      :: be_words p'
  | _ => []
  end.

(** The message schedule, kept most recent word first: with
    [rw = [w[i-1]; w[i-2]; ...]] the next word is
    [t1 + w[i-7] + t2 + w[i-16]]. *)
Definition next_word (rw : list Z) : Z :=
  let v1 := nth 1 rw 0 in
  let t1 := Z.lxor (Z.lxor (rotr 17 v1) (rotr 19 v1)) (Z.shiftr v1 10) in
  let v2 := nth 14 rw 0 in
  let t2 := Z.lxor (Z.lxor (rotr 7 v2) (rotr 18 v2)) (Z.shiftr v2 3) in
  u32 (t1 + nth 6 rw 0 + t2 + nth 15 rw 0).

Fixpoint extend (n : nat) (rw : list Z) : list Z :=
  match n with
  | O => rw
  | S n' => extend n' (next_word rw :: rw)
  end.

Definition schedule (chunk : list Z) : list Z :=
  rev (extend 48 (rev (be_words chunk))).

Definition round (s : digest) (kw : Z * Z) : digest :=
  let '(mkDigest a b c d e f g h) := s in
  let t1 := u32 (h + Z.lxor (Z.lxor (rotr 6 e) (rotr 11 e)) (rotr 25 e)
                   + Z.lxor (Z.land e f) (Z.land (not32 e) g)
                   + fst kw + snd kw) in
  let t2 := u32 (Z.lxor (Z.lxor (rotr 2 a) (rotr 13 a)) (rotr 22 a)
                 + Z.lxor (Z.lxor (Z.land a b) (Z.land a c)) (Z.land b c)) in
  mkDigest (u32 (t1 + t2)) a b c (u32 (d + t1)) e f g.

(** One iteration of the outer loop of [blockGeneric]. *)
Definition block (dig : digest) (chunk : list Z) : digest :=
  let s := fold_left round (combine (map _K (seq 0 64)) (schedule chunk)) dig in
  mkDigest (u32 (h0 dig + h0 s)) (u32 (h1 dig + h1 s))
           (u32 (h2 dig + h2 s)) (u32 (h3 dig + h3 s))
           (u32 (h4 dig + h4 s)) (u32 (h5 dig + h5 s))
           (u32 (h6 dig + h6 s)) (u32 (h7 dig + h7 s)).

(** [for len(p) >= chunk { ...; p = p[chunk:] }]; [n] bounds the number of
    chunks. *)
Fixpoint blocks (n : nat) (dig : digest) (p : list Z) : digest :=
  match n with
  | O => dig
  | S n' =>
      if (length p <? 64)%nat then dig
      else blocks n' (block dig (firstn 64 p)) (skipn 64 p)
  end.

(** [binary.BigEndian.PutUint64]. *)
Definition be64 (x : Z) : list Z :=
  map (fun k => Z.shiftr x (8 * k) mod 256) [7; 6; 5; 4; 3; 2; 1; 0].

(** [checkSum]: a 0x80 byte, zeros up to 56 modulo 64, then the length in
    bits as a big-endian [uint64]. *)
Definition pad (msg : list Z) : list Z :=
  let len := Z.of_nat (length msg) in
  let t := (56 - (len + 1)) mod 64 in
  msg ++ 0x80 :: repeat 0 (Z.to_nat t) ++ be64 ((len * 8) mod 2 ^ 64).

Definition word_bytes (x : Z) : list Z :=
  [ Z.shiftr x 24 mod 256; Z.shiftr x 16 mod 256;
    Z.shiftr x 8 mod 256; x mod 256 ].

Definition digest_bytes (d : digest) : list Z :=
  word_bytes (h0 d) ++ word_bytes (h1 d) ++ word_bytes (h2 d)
  ++ word_bytes (h3 d) ++ word_bytes (h4 d) ++ word_bytes (h5 d)
  ++ word_bytes (h6 d) ++ word_bytes (h7 d).

(** [sha256.Sum256]. *)
Definition Sum256 (data : list Z) : list Z :=
  let p := pad data in
  digest_bytes (blocks (length p) init p).

Definition BlockSize : nat := 64.

End sha256.

(** ** [encoding/hex] *)

Module hex.

Definition hextable : string := "0123456789abcdef".

Definition digit (n : Z) : ascii :=
  match String.get (Z.to_nat n) hextable with
  | Some c => c
  | None => "0"%char
  end.

(** [hex.EncodeToString]: two lower-case digits per byte. *)
Fixpoint EncodeToString (src : list Z) : string :=
  match src with
  | [] => EmptyString
  | v :: src' =>
      String (digit (Z.shiftr v 4)) (String (digit (Z.land v 15))
             (EncodeToString src'))
  end.

(** [reverseHexTable]: the value of a hex digit of either case; every
    other byte is invalid. *)
Definition fromHexChar (c : ascii) : option Z :=
  let n := byte_of_ascii c in
  if (48 <=? n) && (n <=? 57) then Some (n - 48)
  else if (97 <=? n) && (n <=? 102) then Some (n - 97 + 10)
  else if (65 <=? n) && (n <=? 70) then Some (n - 65 + 10)
  else None.

(** [hex.DecodeString]; [None] stands for either of its errors
    ([InvalidByteError], [ErrLength]), which the caller does not tell
    apart. *)
Fixpoint DecodeString (s : string) : option (list Z) :=
  match s with
  | EmptyString => Some []
  | String p EmptyString => None
  | String p (String q s') =>
      match fromHexChar p, fromHexChar q with
      | Some a, Some b =>
          match DecodeString s' with
          | Some bs => Some (Z.lor (Z.shiftl a 4) b :: bs)
          | None => None
          end
      | _, _ => None
      end
  end.

End hex.

(** ** [crypto/hmac] *)

Module hmac.

Definition xor_pad (c : Z) (key : list Z) : list Z :=
  map (fun k => Z.lxor k c) key.

(** [hmac.New (sha256.New, key)]: a key longer than the block size is
    hashed first, then padded with zeros to the block size. *)
Definition block_key (key : list Z) : list Z :=
  let k := if (sha256.BlockSize <? length key)%nat
           then sha256.Sum256 key else key in
  k ++ repeat 0 (sha256.BlockSize - length k).

(** [mac.Write (msg); mac.Sum (nil)]. *)
Definition Sum (key msg : list Z) : list Z :=
  let k := block_key key in
  let inner := sha256.Sum256 (xor_pad 0x36 k ++ msg) in
  sha256.Sum256 (xor_pad 0x5c k ++ inner).

End hmac.

(** ** [encoding/binary] *)

Module binary.

(** [binary.BigEndian.PutUint32 (b, v)]: overwrites [b[0..3]]; [None] is
    the panic on a slice shorter than four bytes. *)
Definition PutUint32 (b : list Z) (v : Z) : option (list Z) :=
  match b with
  | _ :: _ :: _ :: _ :: b' =>
      Some (Z.shiftr v 24 mod 256 :: Z.shiftr v 16 mod 256
            :: Z.shiftr v 8 mod 256 :: v mod 256 :: b')
  | _ => None
  end.

End binary.

(** ** [strconv] *)

Module strconv.

(** [strconv.FormatInt (i, 10)]: the decimal digits of [i] without
    leading zeros, after a minus sign when [i] is negative. *)
Definition FormatInt (i : Z) : string :=
  NilZero.string_of_int (Z.to_int i).

End strconv.

(** ** Results of running Go code *)

(** The outcome of a computation that may loop or panic. *)
Inductive exec (A : Type) : Type :=
| Ret (a : A)   (* normal return *)
| Timeout       (* the fuel of an unbounded loop ran out *)
| Panic.        (* run-time panic (index out of range) *)

Arguments Ret {A} a.
Arguments Timeout {A}.
Arguments Panic {A}.

Definition bind {A B : Type} (m : exec A) (k : A -> exec B) : exec B :=
  match m with
  | Ret a => k a
  | Timeout => Timeout
  | Panic => Panic
  end.

Notation "x <- m ;; k" := (bind m (fun x => k))
  (at level 61, m at next level, right associativity).
Notation "' p <- m ;; k" := (bind m (fun x => let p := x in k))
  (at level 61, p pattern, m at next level, right associativity).

(** [xs[i]], panicking when [i] is out of range. *)
Definition elem_at {A : Type} (xs : list A) (i : nat) : exec A :=
  match nth_error xs i with
  | Some x => Ret x
  | None => Panic
  end.

(** [s[i]] on a string: the byte at offset [i]. *)
Definition byte_at (s : string) (i : nat) : exec Z :=
  match String.get i s with
  | Some c => Ret (byte_of_ascii c)
  | None => Panic
  end.

(** ** Package [verifier] *)

Record PlayerEntry : Type := mkPlayerEntry
  { UID : Z;               (* int64 *)
    ClientSeed : string;   (* hex-encoded 16 B *)
    Source : string }.     (* "player" | "fallback" *)

Record Report : Type := mkReport
  { GameID : string;
    ServerSeed : string;       (* hex-encoded 16 B *)
    ServerSeedHash : string;   (* SHA-256(serverSeed) hex *)
    Rolls : string;            (* each element = AABBCC... *)
    Players : list PlayerEntry }.

(** The error values [Verify] can return.  [ErrRollMismatch] carries the
    arguments of its [fmt.Errorf] call: the offset [i], the generated dice
    [d1], [d2] and the bytes [r1-'0'], [r2-'0']. *)
Inductive error : Type :=
| ErrPlayerCount
| ErrOddRolls
| ErrNotHex (name : string)
| ErrServerHash
| ErrRollMismatch (i : nat) (d1 d2 : Z) (a1 a2 : Z).

(** The text of each error (its [Error()] method). *)
Definition Error (e : error) : string :=
  match e with
  | ErrPlayerCount => "report must contain exactly 2 players"
  | ErrOddRolls => "report must contain exactly odds rolls"
  | ErrNotHex name => name ++ " is not valid hex"
  | ErrServerHash => "server_hash mismatch"
  | ErrRollMismatch i d1 d2 a1 a2 =>
      "roll " ++ strconv.FormatInt (Z.of_nat i)
      ++ " mismatch: expected (" ++ strconv.FormatInt d1 ++ ","
      ++ strconv.FormatInt d2 ++ "), but got(" ++ strconv.FormatInt a1
      ++ "," ++ strconv.FormatInt a2 ++ ")"
  end%string.

(** A Go pair [(value, error)]. *)
Inductive result (A : Type) : Type :=
| Ok (a : A)
| Err (e : error).

Arguments Ok {A} a.
Arguments Err {A} e.

Definition u8 (x : Z) : Z := x mod 256.
Definition u32 (x : Z) : Z := x mod 2 ^ 32.

Definition decodeHex (s name : string) : result (list Z) :=
  match hex.DecodeString s with
  | None => Err (ErrNotHex name)
  | Some b => Ok b
  end.

Definition sha256Hex (b : list Z) : string :=
  let sum := sha256.Sum256 b in
  hex.EncodeToString sum.

(** [combinedSeed] deterministically mixes two client seeds with their
    UIDs.  Both comparisons are comparisons of the decimal strings. *)
Definition combinedSeed (a b : PlayerEntry) : result (list Z) :=
  let aUID := strconv.FormatInt (UID a) in
  let bUID := strconv.FormatInt (UID b) in
  let leftFirst := String.ltb aUID bUID in
  let header := if negb leftFirst
                then (bUID ++ ":" ++ aUID ++ ":")%string
                else (aUID ++ ":" ++ bUID ++ ":")%string in
  let '(first, second) :=
    if String.ltb bUID aUID                      (* aUID > bUID *)
    then (ClientSeed b, ClientSeed a)
    else (ClientSeed a, ClientSeed b) in
  match decodeHex first "clientSeed" with
  | Err e => Err e
  | Ok ha =>
      match decodeHex second "clientSeed" with
      | Err e => Err e
      | Ok hb =>
          let buf := bytes_of_string header ++ ha in
          let buf := buf ++ [58] in               (* ':' *)
          let buf := buf ++ hb in
          Ok (sha256.Sum256 buf)
      end
  end.

(** [make([]byte, n)]. *)
Definition make (n : nat) : list Z := repeat 0 n.

(** [copy(dst, src)]: overwrites the first [min (len dst) (len src)]
    bytes of [dst]. *)
Definition copy (dst src : list Z) : list Z :=
  firstn (length dst) src ++ skipn (length src) dst.

(** [hmacBlock] produces one 32-byte HMAC(serverSeed, combined||nonce_BE)
    block.  The slice [msg[len(msg)-4:]] aliases the tail of [msg]. *)
Definition hmacBlock (key prefix : list Z) (nonce : Z) : exec (list Z) :=
  let msg := make (length prefix + 4) in
  let msg := copy msg prefix in
  let n := (length msg - 4)%nat in
  match binary.PutUint32 (skipn n msg) nonce with
  | None => Panic
  | Some tail => Ret (hmac.Sum key (firstn n msg ++ tail))
  end.

(** The three cells [drawDie] updates through its pointer arguments. *)
Record gen : Type := mkGen
  { g_nonce : Z;        (* *nonce, a uint32 *)
    g_pool : list Z;    (* *pool *)
    g_idx : nat }.      (* *idx *)

(** [drawDie] returns one die value 1-6 using rejection sampling.  Each
    unit of [fuel] pays for one iteration of its [for] loop. *)
Fixpoint drawDie (fuel : nat) (key prefix : list Z) (g : gen)
  : exec (Z * gen) :=
  match fuel with
  | O => Timeout
  | S fuel' =>
      g1 <- (if (length (g_pool g) <=? g_idx g)%nat
             then blk <- hmacBlock key prefix (g_nonce g) ;;
                  Ret (mkGen (u32 (g_nonce g + 1)) blk 0)
             else Ret g) ;;
      v <- elem_at (g_pool g1) (g_idx g1) ;;
      let g2 := mkGen (g_nonce g1) (g_pool g1) (S (g_idx g1)) in
      if v <? 252                 (* 0-251 map evenly to 42x6 faces *)
      then Ret (v mod 6 + 1, g2)
      else drawDie fuel' key prefix g2
  end.

(** [rollDice] returns two dice and the advanced nonce. *)
Definition rollDice (fuel : nat) (serverSeed combined : list Z) (nonce : Z)
  : exec (Z * Z * Z) :=
  blk <- hmacBlock serverSeed combined nonce ;;
  let g := mkGen (u32 (nonce + 1)) blk 0 in
  '(d1, g) <- drawDie fuel serverSeed combined g ;;
  '(d2, g) <- drawDie fuel serverSeed combined g ;;
  Ret (d1, d2, g_nonce g).

(** The loop of [Verify]: [for i := 0; i < len(rep.Rolls); i += 2].  Its
    body runs for [i = 0, 2, 4, ...] below the length, so [n], the number
    of iterations left, starts at [trips (len rep.Rolls)]. *)
Definition trips (len : nat) : nat := Nat.div2 (S len).

Fixpoint compareRolls (fuel : nat) (srvSeed combined : list Z)
    (rolls : string) (n i : nat) (nonce : Z) : exec (option error) :=
  match n with
  | O => Ret None
  | S n' =>
      r1 <- byte_at rolls i ;;
      r2 <- byte_at rolls (i + 1) ;;
      '(d1, d2, nonce') <- rollDice fuel srvSeed combined nonce ;;
      let e1 := u8 (u8 d1 + 48) in
      let e2 := u8 (u8 d2 + 48) in
      if negb (e1 =? r1) || negb (e2 =? r2)
      then Ret (Some (ErrRollMismatch i d1 d2 (u8 (r1 - 48)) (u8 (r2 - 48))))
      else compareRolls fuel srvSeed combined rolls n' (i + 2) nonce'
  end.

(** [Verify] checks every recorded roll.  It returns [None] (Go's [nil])
    when the entire sequence is provably correct. *)
Definition Verify (fuel : nat) (rep : Report) : exec (option error) :=
  if negb (length (Players rep) =? 2)%nat
  then Ret (Some ErrPlayerCount)
  else if negb (String.length (Rolls rep) mod 2 =? 0)%nat
  then Ret (Some ErrOddRolls)
  else
    match decodeHex (ServerSeed rep) "serverSeed" with
    | Err e => Ret (Some e)
    | Ok srvSeed =>
        if negb (String.eqb (sha256Hex srvSeed) (ServerSeedHash rep))
        then Ret (Some ErrServerHash)
        else
          p0 <- elem_at (Players rep) 0 ;;
          p1 <- elem_at (Players rep) 1 ;;
          match combinedSeed p0 p1 with
          | Err e => Ret (Some e)
          | Ok combined =>
              compareRolls fuel srvSeed combined (Rolls rep)
                           (trips (String.length (Rolls rep))) 0 0
          end
    end.

(** ** Notions used to state the properties *)

(** *** The dice stream *)

(** The four bytes of [nonce] in big-endian order. *)
Definition be32 (nonce : Z) : list Z :=
  [ Z.shiftr nonce 24 mod 256; Z.shiftr nonce 16 mod 256;
    Z.shiftr nonce 8 mod 256; nonce mod 256 ].

(** The value of a big-endian byte sequence. *)
Definition be_value (bs : list Z) : Z :=
  fold_left (fun acc b => acc * 256 + b) bs 0.

(** The block of the stream at one nonce. *)
Definition block_at (key prefix : list Z) (nonce : Z) : list Z :=
  hmac.Sum key (prefix ++ be32 nonce).

(** The generator after reading one byte: the cursor moves on. *)
Definition advance (g : gen) : gen :=
  mkGen (g_nonce g) (g_pool g) (S (g_idx g)).

(** The generator after regenerating its block: the block of the current
    nonce, the cursor at 0, the nonce incremented. *)
Definition refill (key prefix : list Z) (g : gen) : gen :=
  mkGen (u32 (g_nonce g + 1)) (block_at key prefix (g_nonce g)) 0.

(** The generator as the read of [drawDie] finds it: regenerated when the
    cursor has reached the end of the block, untouched otherwise. *)
Definition ready (key prefix : list Z) (g : gen) : gen :=
  if (length (g_pool g) <=? g_idx g)%nat then refill key prefix g else g.

(** [m] consecutive blocks, from the one at [nonce] on. *)
Fixpoint stream (key prefix : list Z) (nonce : Z) (m : nat) : list Z :=
  match m with
  | O => []
  | S m' => block_at key prefix nonce ++ stream key prefix (u32 (nonce + 1)) m'
  end.

(** The bytes a generator has yet to read when [m] more blocks follow its
    current one. *)
Definition pending (key prefix : list Z) (g : gen) (m : nat) : list Z :=
  skipn (g_idx g) (g_pool g) ++ stream key prefix (g_nonce g) m.

Definition rejected (v : Z) : Prop := 252 <= v.

(** The nonce after [k] increments. *)
Definition bump (k : nat) (nonce : Z) : Z :=
  Nat.iter k (fun n => u32 (n + 1)) nonce.

(** What one draw does, read off the pending bytes: it skips the rejected
    bytes [pre], makes its die from the first accepted byte [v] and leaves
    the bytes after it; the nonce moves by the number of blocks fetched. *)
Definition draw_post key prefix (g : gen) (m : nat) (post : list Z)
    (g' : gen) : Prop :=
  exists m', (m' <= m)%nat
    /\ pending key prefix g' m' = post
    /\ g_nonce g' = bump (m - m') (g_nonce g)
    /\ length (g_pool g') = 32%nat
    /\ (1 <= g_idx g' <= 32)%nat.

(** The 256 byte values, and those [drawDie] accepts. *)
Definition byte_values : list Z := map Z.of_nat (seq 0 256).
Definition accepted_values : list Z := filter (fun v => v <? 252) byte_values.
Definition rejected_values : list Z :=
  filter (fun v => negb (v <? 252)) byte_values.

(** The rolls the generator produces: [k] calls of [rollDice], each
    starting at the nonce the one before left. *)
Fixpoint generate (fuel : nat) (srvSeed combined : list Z) (nonce : Z)
    (k : nat) : exec (list (Z * Z)) :=
  match k with
  | O => Ret []
  | S k' =>
      '(d1, d2, nonce') <- rollDice fuel srvSeed combined nonce ;;
      rest <- generate fuel srvSeed combined nonce' k' ;;
      Ret ((d1, d2) :: rest)
  end.

(** *** Reports *)

(** The pair of bytes the report records at the character offset [off]. *)
Definition reported (rolls : string) (off : nat) : option (Z * Z) :=
  match String.get off rolls, String.get (off + 1) rolls with
  | Some c1, Some c2 => Some (byte_of_ascii c1, byte_of_ascii c2)
  | _, _ => None
  end.

(** The two ASCII digits of a pair of dice. *)
Definition digit_pair (d : Z * Z) : Z * Z := (fst d + 48, snd d + 48).

(** The specification's taxonomy of the errors. *)
Inductive kind : Type :=
| StructuralViolation
| InvalidEncoding
| CommitmentMismatch
| RollMismatch.

Definition kind_of (e : error) : kind :=
  match e with
  | ErrPlayerCount | ErrOddRolls => StructuralViolation
  | ErrNotHex _ => InvalidEncoding
  | ErrServerHash => CommitmentMismatch
  | ErrRollMismatch _ _ _ _ _ => RollMismatch
  end.

(** [rep] with another roll string. *)
Definition with_rolls (rep : Report) (rolls : string) : Report :=
  mkReport (GameID rep) (ServerSeed rep) (ServerSeedHash rep) rolls
           (Players rep).

(** [rep] with another server seed. *)
Definition with_server_seed (rep : Report) (seed : string) : Report :=
  mkReport (GameID rep) seed (ServerSeedHash rep) (Rolls rep) (Players rep).

(** [rep] with other player entries. *)
Definition with_players (rep : Report) (ps : list PlayerEntry) : Report :=
  mkReport (GameID rep) (ServerSeed rep) (ServerSeedHash rep) (Rolls rep) ps.

(** Two player entries that differ at most in their provenance tag. *)
Definition same_entry_but_source (p q : PlayerEntry) : Prop :=
  UID p = UID q /\ ClientSeed p = ClientSeed q.

(** Two reports that differ at most in the provenance tags of their
    players. *)
Definition same_but_source (r r' : Report) : Prop :=
  GameID r = GameID r'
  /\ ServerSeed r = ServerSeed r'
  /\ ServerSeedHash r = ServerSeedHash r'
  /\ Rolls r = Rolls r'
  /\ Forall2 same_entry_but_source (Players r) (Players r').

(** The characters [hex.DecodeString] takes for digits. *)
Definition is_hex_digit (c : ascii) : bool :=
  existsb (Ascii.eqb c) (list_ascii_of_string "0123456789abcdefABCDEF").

(** The character [c] with its bit [k] (0 the lowest) flipped. *)
Definition flip_bit (k : nat) (c : ascii) : ascii :=
  ascii_of_N (N.lxor (N_of_ascii c) (2 ^ N.of_nat k)).

(** The string [s] with bit [k] of its character at offset [pos]
    flipped. *)
Fixpoint flip_bit_at (pos k : nat) (s : string) : string :=
  match s, pos with
  | EmptyString, _ => EmptyString
  | String c s', O => String (flip_bit k c) s'
  | String c s', S pos' => String c (flip_bit_at pos' k s')
  end.

(** *** The seed mixer *)

(** [combinedSeed] as the specification words it: the header ordered by
    comparing the decimal strings, the two seeds by comparing the UIDs as
    numbers. *)
Definition combinedSeed_numeric_swap (a b : PlayerEntry)
  : result (list Z) :=
  let aUID := strconv.FormatInt (UID a) in
  let bUID := strconv.FormatInt (UID b) in
  let header := if String.ltb aUID bUID
                then (aUID ++ ":" ++ bUID ++ ":")%string
                else (bUID ++ ":" ++ aUID ++ ":")%string in
  let '(first, second) :=
    if UID a >? UID b
    then (ClientSeed b, ClientSeed a)
    else (ClientSeed a, ClientSeed b) in
  match decodeHex first "clientSeed", decodeHex second "clientSeed" with
  | Ok ha, Ok hb =>
      Ok (sha256.Sum256 (bytes_of_string header ++ ha ++ [58] ++ hb))
  | _, _ => Err (ErrNotHex "clientSeed")
  end.

(** The one ordering [combinedSeed] makes: [b] goes first when its UID
    string sorts strictly before that of [a], and [a] otherwise. *)
Definition canonical (a b : PlayerEntry) : PlayerEntry * PlayerEntry :=
  if String.ltb (strconv.FormatInt (UID b)) (strconv.FormatInt (UID a))
  then (b, a) else (a, b).

(** ** Sample data for the worked examples *)

(** A server seed of sixteen zero bytes. *)
Definition sample_key : list Z := repeat 0 16.

Definition sample_a : PlayerEntry :=
  mkPlayerEntry 1001 "00112233445566778899aabbccddeeff" "player".
Definition sample_b : PlayerEntry :=
  mkPlayerEntry 1002 "ffeeddccbbaa99887766554433221100" "fallback".

(** The combined seed of [sample_a] and [sample_b]. *)
Definition sample_combined : list Z :=
  [ 37; 176; 117; 155; 53; 118; 185; 254; 212; 120; 3; 19; 37; 109; 87; 149;
    43; 72; 220; 9; 147; 201; 242; 48; 12; 138; 122; 24; 204; 211; 71; 187 ].

(** The block of [sample_key] and [sample_combined] at nonce 47; its
    first byte is a rejected one. *)
Definition sample_block_47 : list Z :=
  [ 253; 130; 225; 24; 19; 34; 168; 78; 250; 194; 25; 173; 180; 128; 33; 73;
    10; 211; 93; 164; 100; 189; 221; 175; 180; 15; 50; 97; 62; 245; 42; 214 ].

(** A report of two rolls made from [sample_key], [sample_a] and
    [sample_b]. *)
Definition sample_report : Report :=
  mkReport "sample"
           "00000000000000000000000000000000"
           "374708fff7719dd5979ec875d56cd2286f6d3cf7ec317a3b25632aab28ec37bb"
           "6113"
           [sample_a; sample_b].

(** A report of two rolls whose server seed holds letters. *)
Definition lettered_report : Report :=
  mkReport "lettered"
           "00112233445566778899aabbccddeeff"
           "a8faed6abbf35c12a4b26e40f6feb19d736d90045c83b9f9a31f638d323e6811"
           "5662"
           [sample_a; sample_b].

(** Players with the UIDs 9 and 10. *)
Definition uid9 : PlayerEntry := mkPlayerEntry 9 "aa" "player".
Definition uid10 : PlayerEntry := mkPlayerEntry 10 "bb" "player".

(** Two players that share a UID. *)
Definition twin_a : PlayerEntry := mkPlayerEntry 1 "00" "player".
Definition twin_b : PlayerEntry := mkPlayerEntry 1 "ff" "player".

Definition sha256_of_empty : string :=
  "e3b0c44298fc1c149afbf4c8996fb92427ae41e4649b934ca495991b7852b855".


(** ** Notions used by the further properties *)

(** The lower-case hex digits, which [hex.EncodeToString] writes. *)
Definition is_lower_hex (c : ascii) : bool :=
  existsb (Ascii.eqb c) (list_ascii_of_string hex.hextable).

(** [f] applied to every character of a string. *)
Fixpoint string_map (f : ascii -> ascii) (s : string) : string :=
  match s with
  | EmptyString => EmptyString
  | String c s' => String (f c) (string_map f s')
  end.

(** A letter in upper case, respectively lower case; other characters
    are kept. *)
Definition to_upper (c : ascii) : ascii :=
  let n := byte_of_ascii c in
  if (97 <=? n) && (n <=? 122) then ascii_of_N (Z.to_N (n - 32)) else c.

Definition to_lower (c : ascii) : ascii :=
  let n := byte_of_ascii c in
  if (65 <=? n) && (n <=? 90) then ascii_of_N (Z.to_N (n + 32)) else c.

(** Two player entries with the same UID whose client seeds decode to
    the same bytes, or both fail to decode. *)
Definition same_seed_bytes (p q : PlayerEntry) : Prop :=
  UID p = UID q
  /\ hex.DecodeString (ClientSeed p) = hex.DecodeString (ClientSeed q).

(** * Properties *)

(** ** The library models *)

(** Published test vectors (FIPS 180-4, RFC 4231). *)

Example sha_abc :
  hex.EncodeToString (sha256.Sum256 (bytes_of_string "abc"))
  = "ba7816bf8f01cfea414140de5dae2223b00361a396177a9cb410ff61f20015ad"%string.
Proof. vm_compute. reflexivity. Qed.

Example sha_empty :
  hex.EncodeToString (sha256.Sum256 [])
  = "e3b0c44298fc1c149afbf4c8996fb92427ae41e4649b934ca495991b7852b855"%string.
Proof. vm_compute. reflexivity. Qed.

Example sha_two_blocks :
  hex.EncodeToString (sha256.Sum256 (bytes_of_string
    "abcdbcdecdefdefgefghfghighijhijkijkljklmklmnlmnomnopnopq"))
  = "248d6a61d20638b8e5c026930c3e6039a33ce45964ff2167f6ecedd419db06c1"%string.
Proof. vm_compute. reflexivity. Qed.

Example hmac_rfc4231_2 :
  hex.EncodeToString
    (hmac.Sum (bytes_of_string "Jefe")
              (bytes_of_string "what do ya want for nothing?"))
  = "5bdcc146bf60754e6a042426089575c75a003f089d2739839dec58b964ec3843"%string.
Proof. vm_compute. reflexivity. Qed.

Example hmac_rfc4231_6 :
  hex.EncodeToString
    (hmac.Sum (repeat 0xaa 131)
              (bytes_of_string
                 "Test Using Larger Than Block-Size Key - Hash Key First"))
  = "60e431591ee0b67f0d8a26aacbf5b77f8e0bc6213728c5140546040f0ee37f54"%string.
Proof. vm_compute. reflexivity. Qed.

Example FormatInt_ex :
  map strconv.FormatInt [0; 7; 10; -42; 9223372036854775807]
  = ["0"; "7"; "10"; "-42"; "9223372036854775807"]%string.
Proof. vm_compute. reflexivity. Qed.

Lemma digest_bytes_length (d : sha256.digest) :
  length (sha256.digest_bytes d) = 32%nat.
Proof. reflexivity. Qed.

Lemma Sum256_length (data : list Z) : length (sha256.Sum256 data) = 32%nat.
Proof. unfold sha256.Sum256. apply digest_bytes_length. Qed.

Lemma word_bytes_range (x : Z) : Forall is_byte (sha256.word_bytes x).
Proof.
  unfold sha256.word_bytes, is_byte.
  repeat constructor; apply Z.mod_pos_bound; lia.
Qed.

Lemma Sum256_bytes (data : list Z) : Forall is_byte (sha256.Sum256 data).
Proof.
  unfold sha256.Sum256, sha256.digest_bytes.
  repeat (apply Forall_app; split); apply word_bytes_range.
Qed.

Lemma hmac_Sum_length (key msg : list Z) : length (hmac.Sum key msg) = 32%nat.
Proof. unfold hmac.Sum. apply Sum256_length. Qed.

Lemma hmac_Sum_bytes (key msg : list Z) : Forall is_byte (hmac.Sum key msg).
Proof. unfold hmac.Sum. apply Sum256_bytes. Qed.

Lemma copy_make_prefix (prefix : list Z) (k : nat) :
  copy (make (length prefix + k)) prefix = prefix ++ repeat 0 k.
Proof.
  unfold copy, make. rewrite repeat_length.
  rewrite firstn_all2 by lia. f_equal.
  rewrite repeat_app, skipn_app, repeat_length, Nat.sub_diag.
  rewrite skipn_all2 by (rewrite repeat_length; lia). reflexivity.
Qed.

Lemma hmacBlock_eq (key prefix : list Z) (nonce : Z) :
  hmacBlock key prefix nonce = Ret (block_at key prefix nonce).
Proof.
  unfold hmacBlock, block_at. rewrite copy_make_prefix.
  rewrite length_app, repeat_length, Nat.add_sub.
  rewrite skipn_app, Nat.sub_diag, skipn_all, firstn_app, Nat.sub_diag.
  rewrite firstn_all. simpl. rewrite app_nil_r. reflexivity.
Qed.

Lemma block_at_length key prefix nonce :
  length (block_at key prefix nonce) = 32%nat.
Proof. apply hmac_Sum_length. Qed.

Lemma block_at_bytes key prefix nonce :
  Forall is_byte (block_at key prefix nonce).
Proof. apply hmac_Sum_bytes. Qed.

(** ** The dice stream *)

Lemma drawDie_S fuel key prefix g :
  drawDie (S fuel) key prefix g =
  (g1 <- (if (length (g_pool g) <=? g_idx g)%nat
          then blk <- hmacBlock key prefix (g_nonce g) ;;
               Ret (mkGen (u32 (g_nonce g + 1)) blk 0)
          else Ret g) ;;
   v <- elem_at (g_pool g1) (g_idx g1) ;;
   let g2 := mkGen (g_nonce g1) (g_pool g1) (S (g_idx g1)) in
   if v <? 252 then Ret (v mod 6 + 1, g2) else drawDie fuel key prefix g2).
Proof. reflexivity. Qed.

(** Reading inside the block. *)
Lemma drawDie_read fuel key prefix g v :
  nth_error (g_pool g) (g_idx g) = Some v ->
  drawDie (S fuel) key prefix g =
  if v <? 252 then Ret (v mod 6 + 1, advance g)
  else drawDie fuel key prefix (advance g).
Proof.
  intros Hv. rewrite drawDie_S.
  assert (Hlt : (g_idx g < length (g_pool g))%nat).
  { apply nth_error_Some. congruence. }
  apply Nat.leb_gt in Hlt. rewrite Hlt. cbn [bind].
  unfold elem_at. rewrite Hv. reflexivity.
Qed.

(** Reading at the end of the block: the block is regenerated first. *)
Lemma drawDie_refill fuel key prefix g :
  (length (g_pool g) <= g_idx g)%nat ->
  drawDie fuel key prefix g = drawDie fuel key prefix (refill key prefix g).
Proof.
  intros Hge. destruct fuel as [|fuel]; [reflexivity|].
  rewrite !drawDie_S.
  apply Nat.leb_le in Hge. rewrite Hge, hmacBlock_eq. cbn [bind].
  fold (refill key prefix g).
  replace (length (g_pool (refill key prefix g))
           <=? g_idx (refill key prefix g))%nat with false.
  - reflexivity.
  - symmetry. apply Nat.leb_gt. cbn [refill g_pool g_idx].
    rewrite block_at_length. lia.
Qed.

Lemma drawDie_mono fuel fuel' key prefix g r :
  drawDie fuel key prefix g = Ret r -> (fuel <= fuel')%nat ->
  drawDie fuel' key prefix g = Ret r.
Proof.
  revert fuel' g. induction fuel as [|fuel IH]; intros fuel' g H Hle.
  - discriminate.
  - destruct fuel' as [|fuel']; [lia|].
    rewrite drawDie_S in H |- *.
    destruct (if (length (g_pool g) <=? g_idx g)%nat
              then blk <- hmacBlock key prefix (g_nonce g) ;;
                   Ret (mkGen (u32 (g_nonce g + 1)) blk 0)
              else Ret g) as [g1| |]; cbn [bind] in *; try discriminate.
    destruct (elem_at (g_pool g1) (g_idx g1)) as [v| |];
      cbn [bind] in *; try discriminate.
    destruct (v <? 252); [assumption|].
    apply IH; [assumption|lia].
Qed.

(** A die value is always made from a byte below 252: the byte just
    before the cursor. *)
Lemma drawDie_sound fuel key prefix g d g' :
  drawDie fuel key prefix g = Ret (d, g') ->
  exists i v, g_idx g' = S i /\ nth_error (g_pool g') i = Some v
              /\ v < 252 /\ d = v mod 6 + 1.
Proof.
  revert g. induction fuel as [|fuel IH]; intros g H; [discriminate|].
  rewrite drawDie_S in H.
  destruct (if (length (g_pool g) <=? g_idx g)%nat
            then blk <- hmacBlock key prefix (g_nonce g) ;;
                 Ret (mkGen (u32 (g_nonce g + 1)) blk 0)
            else Ret g) as [g1| |]; cbn [bind] in *; try discriminate.
  unfold elem_at in H.
  destruct (nth_error (g_pool g1) (g_idx g1)) as [v|] eqn:Hv;
    cbn [bind] in *; try discriminate.
  destruct (v <? 252) eqn:Hacc.
  - injection H as <- <-. exists (g_idx g1), v. cbn.
    apply Z.ltb_lt in Hacc. auto.
  - eauto.
Qed.

Lemma u32_succ x : u32 (u32 x + 1) = u32 (x + 1).
Proof. unfold u32. rewrite Zplus_mod_idemp_l. reflexivity. Qed.

Lemma bump_u32 k x : bump k (u32 x) = u32 (x + Z.of_nat k).
Proof.
  unfold bump. induction k as [|k IH].
  - cbn. f_equal. lia.
  - rewrite Nat.iter_succ, IH, u32_succ. f_equal. lia.
Qed.

Lemma bump_succ_r k x : bump (S k) x = bump k (u32 (x + 1)).
Proof. exact (Nat.iter_succ_r k Z (fun n => u32 (n + 1)) x). Qed.

Lemma stream_length key prefix nonce m :
  length (stream key prefix nonce m) = (32 * m)%nat.
Proof.
  revert nonce. induction m as [|m IH]; intros nonce; [reflexivity|].
  cbn [stream]. rewrite length_app, block_at_length, IH. lia.
Qed.

Lemma skipn_nth_error {A} (l : list A) i x :
  nth_error l i = Some x -> skipn i l = x :: skipn (S i) l.
Proof.
  revert i. induction l as [|y l IH]; intros [|i] H; try discriminate.
  - injection H as ->. reflexivity.
  - cbn [nth_error] in H. apply IH in H. exact H.
Qed.

Lemma pending_read key prefix g m v :
  nth_error (g_pool g) (g_idx g) = Some v ->
  pending key prefix g m = v :: pending key prefix (advance g) m.
Proof.
  intros H. unfold pending. cbn [advance g_pool g_idx g_nonce].
  rewrite (skipn_nth_error _ _ _ H). reflexivity.
Qed.

Lemma pending_refill key prefix g m :
  (length (g_pool g) <= g_idx g)%nat ->
  pending key prefix g (S m) = pending key prefix (refill key prefix g) m.
Proof.
  intros H. unfold pending. cbn [refill g_pool g_idx g_nonce stream skipn].
  rewrite skipn_all2 by assumption. reflexivity.
Qed.

Lemma pending_end key prefix g :
  (length (g_pool g) <= g_idx g)%nat -> pending key prefix g 0 = [].
Proof.
  intros H. unfold pending. rewrite skipn_all2 by assumption. reflexivity.
Qed.

Lemma pending_length key prefix g m :
  (g_idx g <= length (g_pool g))%nat ->
  length (pending key prefix g m)
  = (length (g_pool g) - g_idx g + 32 * m)%nat.
Proof.
  intros H. unfold pending.
  rewrite length_app, length_skipn, stream_length. reflexivity.
Qed.

Lemma drawDie_stream_inblock key prefix pre :
  forall g m fuel v post,
    length (g_pool g) = 32%nat -> (g_idx g < 32)%nat ->
    pending key prefix g m = pre ++ v :: post ->
    Forall rejected pre -> v < 252 -> (length pre < fuel)%nat ->
    exists g', drawDie fuel key prefix g = Ret (v mod 6 + 1, g')
               /\ draw_post key prefix g m post g'.
Proof.
  induction pre as [|x pre IH]; intros g m fuel v post Hlen Hidx Hp Hrej Hv Hf.
  - destruct fuel as [|fuel]; [inversion Hf|].
    destruct (nth_error (g_pool g) (g_idx g)) as [w|] eqn:Hw.
    2:{ apply nth_error_None in Hw. lia. }
    rewrite (pending_read _ _ _ _ _ Hw) in Hp. cbn [app] in Hp.
    injection Hp as -> Hpost.
    rewrite (drawDie_read _ _ _ _ _ Hw).
    apply Z.ltb_lt in Hv. rewrite Hv.
    eexists. split; [reflexivity|].
    exists m. rewrite Nat.sub_diag. cbn.
    repeat split; auto; lia.
  - destruct fuel as [|fuel]; [inversion Hf|]. cbn [length] in Hf.
    destruct (nth_error (g_pool g) (g_idx g)) as [w|] eqn:Hw.
    2:{ apply nth_error_None in Hw. lia. }
    rewrite (pending_read _ _ _ _ _ Hw) in Hp. cbn [app] in Hp.
    injection Hp as -> Hpost.
    rewrite (drawDie_read _ _ _ _ _ Hw).
    inversion Hrej as [|? ? Hx Hrej']; subst.
    unfold rejected in Hx.
    replace (x <? 252) with false by (symmetry; apply Z.ltb_ge; exact Hx).
    destruct (Nat.eq_dec (S (g_idx g)) 32) as [Hend|Hin].
    + (* the block is exhausted: the next read regenerates it *)
      assert (Hge : (length (g_pool (advance g)) <= g_idx (advance g))%nat).
      { cbn. lia. }
      rewrite (drawDie_refill _ _ _ _ Hge).
      destruct m as [|m].
      { rewrite (pending_end _ _ _ Hge) in Hpost.
        destruct pre; discriminate. }
      rewrite (pending_refill _ _ _ _ Hge) in Hpost.
      assert (Hl32 : length (g_pool (refill key prefix (advance g))) = 32%nat)
        by apply block_at_length.
      assert (Hi0 : (g_idx (refill key prefix (advance g)) < 32)%nat)
        by (cbn; lia).
      assert (Hfu : (length pre < fuel)%nat) by lia.
      destruct (IH _ m fuel v post Hl32 Hi0 Hpost Hrej' Hv Hfu)
        as (g' & Hrun & m' & Hm' & Hpend & Hnonce & Hl & Hi).
      exists g'. split; [exact Hrun|].
      exists m'. repeat split; auto; try lia.
      rewrite Hnonce. cbn [refill advance g_nonce].
      replace (S m - m')%nat with (S (m - m')) by lia.
      rewrite bump_succ_r. reflexivity.
    + assert (Hi0 : (g_idx (advance g) < 32)%nat) by (cbn; lia).
      assert (Hfu : (length pre < fuel)%nat) by lia.
      destruct (IH (advance g) m fuel v post Hlen Hi0 Hpost Hrej' Hv Hfu)
        as (g' & Hrun & m' & Hm' & Hpend & Hnonce & Hl & Hi).
      exists g'. split; [exact Hrun|].
      exists m'. repeat split; auto; lia.
Qed.

Lemma drawDie_stream key prefix pre g m fuel v post :
  length (g_pool g) = 32%nat -> (g_idx g <= 32)%nat ->
  pending key prefix g m = pre ++ v :: post ->
  Forall rejected pre -> v < 252 -> (length pre < fuel)%nat ->
  exists g', drawDie fuel key prefix g = Ret (v mod 6 + 1, g')
             /\ draw_post key prefix g m post g'.
Proof.
  intros Hlen Hidx Hp Hrej Hv Hf.
  destruct (Nat.eq_dec (g_idx g) 32) as [Hend|Hin].
  - assert (Hge : (length (g_pool g) <= g_idx g)%nat) by lia.
    rewrite (drawDie_refill _ _ _ _ Hge).
    destruct m as [|m].
    { rewrite (pending_end _ _ _ Hge) in Hp. destruct pre; discriminate. }
    rewrite (pending_refill _ _ _ _ Hge) in Hp.
    assert (Hl32 : length (g_pool (refill key prefix g)) = 32%nat)
      by apply block_at_length.
    assert (Hi0 : (g_idx (refill key prefix g) < 32)%nat) by (cbn; lia).
    destruct (drawDie_stream_inblock key prefix pre
                (refill key prefix g) m fuel v post Hl32 Hi0 Hp Hrej Hv Hf)
      as (g' & Hrun & m' & Hm' & Hpend & Hnonce & Hl & Hi).
    exists g'. split; [exact Hrun|].
    exists m'. repeat split; auto; try lia.
    rewrite Hnonce. cbn [refill g_nonce].
    replace (S m - m')%nat with (S (m - m')) by lia.
    rewrite bump_succ_r. reflexivity.
  - apply (drawDie_stream_inblock key prefix pre); auto. lia.
Qed.

Lemma drawDie_ready fuel key prefix g :
  drawDie fuel key prefix g = drawDie fuel key prefix (ready key prefix g).
Proof.
  unfold ready. destruct (Nat.leb_spec (length (g_pool g)) (g_idx g)).
  - apply drawDie_refill. assumption.
  - reflexivity.
Qed.

Lemma drawDie_pool_bytes fuel key prefix g d g' :
  Forall is_byte (g_pool g) ->
  drawDie fuel key prefix g = Ret (d, g') ->
  Forall is_byte (g_pool g').
Proof.
  revert g. induction fuel as [|fuel IH]; intros g Hb H; [discriminate|].
  rewrite drawDie_S, hmacBlock_eq in H.
  assert (Hb1 : forall g1,
    (if (length (g_pool g) <=? g_idx g)%nat
     then blk <- Ret (block_at key prefix (g_nonce g)) ;;
          Ret (mkGen (u32 (g_nonce g + 1)) blk 0)
     else Ret g) = Ret g1 -> Forall is_byte (g_pool g1)).
  { intros g1. destruct (length (g_pool g) <=? g_idx g)%nat; cbn [bind].
    - intros [= <-]. apply block_at_bytes.
    - intros [= <-]. exact Hb. }
  destruct (if (length (g_pool g) <=? g_idx g)%nat
            then blk <- Ret (block_at key prefix (g_nonce g)) ;;
                 Ret (mkGen (u32 (g_nonce g + 1)) blk 0)
            else Ret g) as [g1| |]; cbn [bind] in *; try discriminate.
  specialize (Hb1 g1 eq_refl).
  destruct (elem_at (g_pool g1) (g_idx g1)) as [v| |];
    cbn [bind] in *; try discriminate.
  destruct (v <? 252).
  - injection H as <- <-. exact Hb1.
  - eapply IH; [|exact H]. exact Hb1.
Qed.

Lemma face_range v : 1 <= v mod 6 + 1 <= 6.
Proof. pose proof (Z.mod_pos_bound v 6 ltac:(lia)). lia. Qed.

Lemma rollDice_eq fuel key prefix nonce :
  rollDice fuel key prefix nonce =
  ('(d1, g) <- drawDie fuel key prefix
                 (mkGen (u32 (nonce + 1)) (block_at key prefix nonce) 0) ;;
   '(d2, g) <- drawDie fuel key prefix g ;;
   Ret (d1, d2, g_nonce g)).
Proof. unfold rollDice. rewrite hmacBlock_eq. reflexivity. Qed.

Lemma rollDice_faces fuel key prefix nonce d1 d2 nonce' :
  rollDice fuel key prefix nonce = Ret (d1, d2, nonce') ->
  1 <= d1 <= 6 /\ 1 <= d2 <= 6.
Proof.
  rewrite rollDice_eq.
  destruct (drawDie fuel key prefix _) as [[e1 g1]| |] eqn:H1;
    cbn [bind]; try discriminate.
  destruct (drawDie fuel key prefix g1) as [[e2 g2]| |] eqn:H2;
    cbn [bind]; try discriminate.
  intros [= <- <- <-].
  apply drawDie_sound in H1 as (? & ? & _ & _ & _ & ->).
  apply drawDie_sound in H2 as (? & ? & _ & _ & _ & ->).
  split; apply face_range.
Qed.

Lemma rollDice_mono fuel fuel' key prefix nonce r :
  rollDice fuel key prefix nonce = Ret r -> (fuel <= fuel')%nat ->
  rollDice fuel' key prefix nonce = Ret r.
Proof.
  rewrite !rollDice_eq. intros H Hle.
  destruct (drawDie fuel key prefix _) as [[e1 g1]| |] eqn:H1;
    cbn [bind] in H; try discriminate.
  rewrite (drawDie_mono _ _ _ _ _ _ H1 Hle). cbn [bind].
  destruct (drawDie fuel key prefix g1) as [[e2 g2]| |] eqn:H2;
    cbn [bind] in H; try discriminate.
  rewrite (drawDie_mono _ _ _ _ _ _ H2 Hle). exact H.
Qed.

(** A roll takes its two dice from the first two accepted bytes of the
    stream that starts with the block of its nonce, and leaves the nonce
    advanced by the number of blocks it read from. *)
Lemma rollDice_stream key prefix nonce m pre1 v1 pre2 v2 post fuel :
  stream key prefix nonce (S m) = pre1 ++ v1 :: pre2 ++ v2 :: post ->
  Forall rejected pre1 -> v1 < 252 ->
  Forall rejected pre2 -> v2 < 252 ->
  (length pre1 < fuel)%nat -> (length pre2 < fuel)%nat ->
  rollDice fuel key prefix nonce =
  Ret (v1 mod 6 + 1, v2 mod 6 + 1,
       u32 (nonce + (Z.of_nat (length pre1 + length pre2 + 2) + 31) / 32)).
Proof.
  intros Hs Hr1 Hv1 Hr2 Hv2 Hf1 Hf2. rewrite rollDice_eq.
  set (g0 := mkGen (u32 (nonce + 1)) (block_at key prefix nonce) 0).
  assert (Hp0 : pending key prefix g0 m = pre1 ++ v1 :: pre2 ++ v2 :: post).
  { rewrite <- Hs. reflexivity. }
  assert (Hl0 : length (g_pool g0) = 32%nat) by apply block_at_length.
  assert (Hi0 : (g_idx g0 <= 32)%nat) by (cbn; lia).
  destruct (drawDie_stream key prefix pre1 g0 m fuel v1 _ Hl0 Hi0 Hp0 Hr1 Hv1 Hf1)
    as (g1 & Hrun1 & m1 & Hm1 & Hp1 & Hn1 & Hl1 & Hi1).
  rewrite Hrun1. cbn [bind].
  assert (Hi1' : (g_idx g1 <= 32)%nat) by lia.
  destruct (drawDie_stream key prefix pre2 g1 m1 fuel v2 _ Hl1 Hi1' Hp1 Hr2 Hv2 Hf2)
    as (g2 & Hrun2 & m2 & Hm2 & Hp2 & Hn2 & Hl2 & Hi2).
  rewrite Hrun2. cbn [bind]. do 2 f_equal.
  rewrite Hn2, Hn1. subst g0. cbn [g_nonce].
  rewrite !bump_u32. f_equal.
  (* the bytes consumed fill [m - m2] blocks and [g_idx g2] bytes more *)
  assert (Hlen : length (stream key prefix nonce (S m))
                 = (length pre1 + length pre2 + 2 + length post)%nat).
  { rewrite Hs. rewrite !length_app. cbn [length]. rewrite length_app.
    cbn [length]. lia. }
  rewrite stream_length in Hlen.
  rewrite <- Hp2, pending_length in Hlen by lia.
  rewrite Hl2 in Hlen.
  set (c := Z.of_nat (length pre1 + length pre2 + 2)) in *.
  assert (Hc : c = 32 * Z.of_nat (m - m2) + Z.of_nat (g_idx g2)) by lia.
  assert (Hq : (c + 31) / 32 = Z.of_nat (m - m2) + 1).
  { symmetry. apply (Z.div_unique _ _ _ (Z.of_nat (g_idx g2) - 1)); lia. }
  rewrite Hq. lia.
Qed.

Lemma be32_value (n : Z) : 0 <= n < 2 ^ 32 -> be_value (be32 n) = n.
Proof.
  intros Hn. unfold be_value, be32. cbn [fold_left].
  rewrite !Z.shiftr_div_pow2 by lia.
  change (2 ^ 24) with (2 ^ 16 * 256). change (2 ^ 16) with (2 ^ 8 * 256).
  change (2 ^ 8) with 256.
  rewrite <- !Z.div_div by lia.
  set (q1 := n / 256). set (q2 := q1 / 256). set (q3 := q2 / 256).
  assert (H3 : q3 mod 256 = q3).
  { apply Z.mod_small. subst q3 q2 q1.
    split.
    - repeat apply Z.div_pos; lia.
    - repeat (apply Z.div_lt_upper_bound; [lia|]). lia. }
  rewrite H3.
  pose proof (Z.div_mod n 256 ltac:(lia)).
  pose proof (Z.div_mod q1 256 ltac:(lia)).
  pose proof (Z.div_mod q2 256 ltac:(lia)).
  fold q1 in H. fold q2 in H0. fold q3 in H1. lia.
Qed.

(** C5 (dice-stream block protocol).  For every nonce the block is the
    32-byte HMAC-SHA256, keyed by the server seed, of the combined seed
    followed by the nonce as four big-endian bytes.  A roll starts by
    generating the block of its nonce and incrementing the nonce; a draw
    whose cursor has exhausted the block generates the block of the next
    nonce and resets the cursor to 0.  So the two dice of a roll are made
    from the first two accepted bytes of the stream of blocks that starts
    at the roll's nonce, wherever the block boundaries fall, and the nonce
    advances by the number of blocks the roll read from. *)
Theorem C5_block_protocol (key prefix : list Z) (nonce : Z) :
  (hmacBlock key prefix nonce = Ret (hmac.Sum key (prefix ++ be32 nonce))
   /\ length (hmac.Sum key (prefix ++ be32 nonce)) = 32%nat
   /\ (0 <= nonce < 2 ^ 32 -> be_value (be32 nonce) = nonce))
  /\ (forall fuel,
        rollDice fuel key prefix nonce =
        ('(d1, g) <- drawDie fuel key prefix
                       (mkGen (u32 (nonce + 1))
                              (hmac.Sum key (prefix ++ be32 nonce)) 0) ;;
         '(d2, g) <- drawDie fuel key prefix g ;;
         Ret (d1, d2, g_nonce g)))
  /\ (forall fuel g,
        (length (g_pool g) <= g_idx g)%nat ->
        drawDie fuel key prefix g =
        drawDie fuel key prefix
          (mkGen (u32 (g_nonce g + 1))
                 (hmac.Sum key (prefix ++ be32 (g_nonce g))) 0))
  /\ (forall fuel m pre1 v1 pre2 v2 post,
        stream key prefix nonce (S m) = pre1 ++ v1 :: pre2 ++ v2 :: post ->
        Forall rejected pre1 -> v1 < 252 ->
        Forall rejected pre2 -> v2 < 252 ->
        (length pre1 < fuel)%nat -> (length pre2 < fuel)%nat ->
        rollDice fuel key prefix nonce =
        Ret (v1 mod 6 + 1, v2 mod 6 + 1,
             u32 (nonce
                  + (Z.of_nat (length pre1 + length pre2 + 2) + 31) / 32))).
Proof.
  split; [|split; [|split]].
  - split; [apply hmacBlock_eq|].
    split; [apply hmac_Sum_length | apply be32_value].
  - intros fuel. apply rollDice_eq.
  - intros fuel g Hge. apply drawDie_refill. exact Hge.
  - intros fuel m pre1 v1 pre2 v2 post. apply rollDice_stream.
Qed.

Example sample_combined_eq :
  combinedSeed sample_a sample_b = Ok sample_combined.
Proof. vm_compute. reflexivity. Qed.

Example sample_block_47_eq :
  hmacBlock sample_key sample_combined 47 = Ret sample_block_47.
Proof. vm_compute. reflexivity. Qed.

(** The roll at nonce 47 skips the rejected byte 253 and makes its dice
    from 130 and 225. *)
Lemma C5_block_protocol_witness :
  rollDice 2 sample_key sample_combined 47 = Ret (5, 4, 48).
Proof.
  refine (proj2 (proj2 (proj2 (C5_block_protocol sample_key sample_combined 47)))
            2%nat 0%nat [253] 130 [] 225 (skipn 3 sample_block_47)
            _ _ _ _ _ _ _).
  - vm_compute. reflexivity.
  - repeat constructor. unfold rejected. lia.
  - lia.
  - constructor.
  - lia.
  - cbn. lia.
  - cbn. lia.
Defined.

Lemma rejected_values_eq : rejected_values = [252; 253; 254; 255].
Proof. vm_compute. reflexivity. Qed.

Lemma accepted_values_spec v : In v accepted_values <-> 0 <= v <= 251.
Proof.
  unfold accepted_values, byte_values. rewrite filter_In, in_map_iff.
  split.
  - intros [(n & <- & Hn) Hv]. apply Z.ltb_lt in Hv. lia.
  - intros Hv. split.
    + exists (Z.to_nat v). split; [lia|]. apply in_seq. lia.
    + apply Z.ltb_lt. lia.
Qed.

Lemma faces_uniform face :
  1 <= face <= 6 ->
  length (filter (fun v => v mod 6 + 1 =? face) accepted_values) = 42%nat.
Proof.
  intros H.
  assert (Hc : face = 1 \/ face = 2 \/ face = 3 \/ face = 4 \/ face = 5
               \/ face = 6) by lia.
  destruct Hc as [-> | [-> | [-> | [-> | [-> | ->]]]]];
    vm_compute; reflexivity.
Qed.

(** C6 (rejection sampling).  The byte [v] that [drawDie] reads is accepted
    exactly when it lies in [0, 251]; the draw then returns [v mod 6 + 1],
    a face in 1..6.  A byte in 252..255 only moves the cursor and the loop
    goes on.  So the die a draw returns is always made from a byte in
    [0, 251], the one just before the final cursor; the rejected values
    are 252, 253, 254 and 255, and each face is the image of exactly 42 of
    the 252 accepted values. *)
Theorem C6_rejection_sampling :
  (forall fuel key prefix g v,
     let g1 := ready key prefix g in
     nth_error (g_pool g1) (g_idx g1) = Some v -> is_byte v ->
     (0 <= v <= 251 ->
        drawDie (S fuel) key prefix g = Ret (v mod 6 + 1, advance g1)
        /\ 1 <= v mod 6 + 1 <= 6)
     /\ (252 <= v ->
        drawDie (S fuel) key prefix g = drawDie fuel key prefix (advance g1))
     /\ (0 <= v <= 251 \/ 252 <= v))
  /\ (forall fuel key prefix g d g',
        Forall is_byte (g_pool g) ->
        drawDie fuel key prefix g = Ret (d, g') ->
        exists i v, g_idx g' = S i /\ nth_error (g_pool g') i = Some v
                    /\ 0 <= v <= 251 /\ d = v mod 6 + 1 /\ 1 <= d <= 6)
  /\ rejected_values = [252; 253; 254; 255]
  /\ length accepted_values = 252%nat
  /\ (forall v, In v accepted_values <-> 0 <= v <= 251)
  /\ (forall face, 1 <= face <= 6 ->
        length (filter (fun v => v mod 6 + 1 =? face) accepted_values)
        = 42%nat).
Proof.
  split; [|split; [|split; [|split; [|split]]]].
  - intros fuel key prefix g v g1 Hv Hb.
    rewrite (drawDie_ready (S fuel)). fold g1.
    rewrite (drawDie_read _ _ _ _ _ Hv).
    split; [|split].
    + intros Hacc. replace (v <? 252) with true
        by (symmetry; apply Z.ltb_lt; lia).
      split; [reflexivity | apply face_range].
    + intros Hrej. replace (v <? 252) with false
        by (symmetry; apply Z.ltb_ge; lia).
      reflexivity.
    + unfold is_byte in Hb. lia.
  - intros fuel key prefix g d g' Hb H.
    pose proof (drawDie_pool_bytes _ _ _ _ _ _ Hb H) as Hb'.
    destruct (drawDie_sound _ _ _ _ _ _ H) as (i & v & Hi & Hv & Hlt & ->).
    assert (Hr : is_byte v).
    { rewrite Forall_forall in Hb'. apply Hb'.
      apply nth_error_In with (n := i). exact Hv. }
    unfold is_byte in Hr. pose proof (face_range v).
    exists i, v. repeat split; auto; lia.
  - apply rejected_values_eq.
  - vm_compute. reflexivity.
  - apply accepted_values_spec.
  - apply faces_uniform.
Qed.

(** At nonce 47 the first draw reads 253 and rejects it, the next reads
    130 and returns the face 5. *)
Lemma C6_rejection_sampling_witness :
  drawDie 2 sample_key sample_combined (mkGen 48 sample_block_47 0)
  = drawDie 1 sample_key sample_combined (mkGen 48 sample_block_47 1)
  /\ drawDie 1 sample_key sample_combined (mkGen 48 sample_block_47 1)
     = Ret (5, mkGen 48 sample_block_47 2).
Proof.
  split.
  - refine (proj1 (proj2 (proj1 C6_rejection_sampling 1%nat sample_key
                            sample_combined (mkGen 48 sample_block_47 0) 253
                            _ _)) _).
    + reflexivity.
    + unfold is_byte. lia.
    + lia.
  - refine (proj1 (proj1 (proj1 C6_rejection_sampling 0%nat sample_key
                            sample_combined (mkGen 48 sample_block_47 1) 130
                            _ _) _)).
    + reflexivity.
    + unfold is_byte. lia.
    + lia.
Defined.

(** ** The comparison loop *)

Lemma compareRolls_S fuel srv comb rolls n i nonce :
  compareRolls fuel srv comb rolls (S n) i nonce =
  (r1 <- byte_at rolls i ;;
   r2 <- byte_at rolls (i + 1) ;;
   '(d1, d2, nonce') <- rollDice fuel srv comb nonce ;;
   let e1 := u8 (u8 d1 + 48) in
   let e2 := u8 (u8 d2 + 48) in
   if negb (e1 =? r1) || negb (e2 =? r2)
   then Ret (Some (ErrRollMismatch i d1 d2 (u8 (r1 - 48)) (u8 (r2 - 48))))
   else compareRolls fuel srv comb rolls n (i + 2) nonce').
Proof. reflexivity. Qed.

Lemma reported_bytes rolls off r1 r2 :
  reported rolls off = Some (r1, r2) <->
  byte_at rolls off = Ret r1 /\ byte_at rolls (off + 1) = Ret r2.
Proof.
  unfold reported, byte_at.
  destruct (String.get off rolls), (String.get (off + 1) rolls);
    (split; [intros H | intros [H1 H2]]); try discriminate.
  - injection H as <- <-. split; reflexivity.
  - injection H1 as <-. injection H2 as <-. reflexivity.
Qed.

(** The test of the loop body: it fails exactly when the reported bytes
    are not the digits of the dice. *)
Lemma mismatch_test d1 d2 r1 r2 :
  1 <= d1 <= 6 -> 1 <= d2 <= 6 ->
  negb (u8 (u8 d1 + 48) =? r1) || negb (u8 (u8 d2 + 48) =? r2) = false
  <-> (r1, r2) = digit_pair (d1, d2).
Proof.
  intros H1 H2. unfold u8, digit_pair. cbn [fst snd].
  rewrite (Z.mod_small d1), (Z.mod_small d2) by lia.
  rewrite (Z.mod_small (d1 + 48)), (Z.mod_small (d2 + 48)) by lia.
  rewrite orb_false_iff, !negb_false_iff, !Z.eqb_eq.
  split; [intros [<- <-]; reflexivity | intros [= -> ->]; auto].
Qed.

(** One turn of the loop, when the two bytes are there and the roll
    returns. *)
Lemma compareRolls_turn fuel srv comb rolls n i nonce r1 r2 d1 d2 nonce' :
  reported rolls i = Some (r1, r2) ->
  rollDice fuel srv comb nonce = Ret (d1, d2, nonce') ->
  compareRolls fuel srv comb rolls (S n) i nonce =
  if negb (u8 (u8 d1 + 48) =? r1) || negb (u8 (u8 d2 + 48) =? r2)
  then Ret (Some (ErrRollMismatch i d1 d2 (u8 (r1 - 48)) (u8 (r2 - 48))))
  else compareRolls fuel srv comb rolls n (i + 2) nonce'.
Proof.
  intros Hr Hd. apply reported_bytes in Hr as [Hr1 Hr2].
  rewrite compareRolls_S, Hr1, Hr2, Hd. reflexivity.
Qed.

(** The loop ends without error exactly when the generator yields all its
    rolls and each reported pair shows the digits of the generated one. *)
Lemma compareRolls_ok fuel srv comb rolls :
  forall n i nonce,
    compareRolls fuel srv comb rolls n i nonce = Ret None <->
    exists gens,
      generate fuel srv comb nonce n = Ret gens
      /\ forall j, (j < n)%nat ->
           reported rolls (i + 2 * j)
           = option_map digit_pair (nth_error gens j).
Proof.
  induction n as [|n IH]; intros i nonce.
  - cbn [compareRolls generate]. split; [intros _|reflexivity].
    exists []. split; [reflexivity|]. intros j Hj. inversion Hj.
  - rewrite compareRolls_S. cbn [generate].
    destruct (rollDice fuel srv comb nonce) as [[[d1 d2] nonce']| |] eqn:Hd.
    2,3: split; [ destruct (byte_at rolls i); cbn [bind]; try discriminate;
                   destruct (byte_at rolls (i + 1)); cbn [bind]; discriminate
                 | intros (gens & Hg & _); discriminate ].
    destruct (rollDice_faces _ _ _ _ _ _ _ Hd) as [Hd1 Hd2].
    cbn [bind].
    destruct (reported rolls i) as [[r1 r2]|] eqn:Hr.
    + apply reported_bytes in Hr as Hb. destruct Hb as [Hr1 Hr2].
      rewrite Hr1, Hr2. cbn [bind].
      pose proof (mismatch_test d1 d2 r1 r2 Hd1 Hd2) as Ht.
      destruct (negb (u8 (u8 d1 + 48) =? r1) || negb (u8 (u8 d2 + 48) =? r2)).
      * split; [discriminate|].
        intros (gens & Hg & Hall).
        destruct (generate fuel srv comb nonce' n) as [rest| |];
          cbn [bind] in Hg; try discriminate.
        injection Hg as <-.
        specialize (Hall 0%nat ltac:(lia)).
        rewrite Nat.mul_0_r, Nat.add_0_r, Hr in Hall. cbn in Hall.
        injection Hall as Hall1 Hall2.
        assert ((r1, r2) = digit_pair (d1, d2)) as Heq
          by (unfold digit_pair; cbn; congruence).
        apply Ht in Heq. discriminate.
      * rewrite IH. destruct Ht as [Ht _]. specialize (Ht eq_refl).
        split.
        -- intros (rest & Hg & Hall). exists ((d1, d2) :: rest).
           rewrite Hg. cbn [bind]. split; [reflexivity|].
           intros [|j] Hj.
           ++ rewrite Nat.mul_0_r, Nat.add_0_r, Hr. cbn. f_equal. exact Ht.
           ++ cbn [nth_error]. rewrite <- Hall by lia. f_equal. lia.
        -- intros (gens & Hg & Hall).
           destruct (generate fuel srv comb nonce' n) as [rest| |];
             cbn [bind] in Hg; try discriminate.
           injection Hg as <-. exists rest. split; [reflexivity|].
           intros j Hj. specialize (Hall (S j) ltac:(lia)).
           cbn [nth_error] in Hall. rewrite <- Hall. f_equal. lia.
    + split.
      * unfold reported in Hr. unfold byte_at.
        destruct (String.get i rolls); cbn [bind]; try discriminate.
        destruct (String.get (i + 1) rolls); cbn [bind]; discriminate.
      * intros (gens & Hg & Hall).
        destruct (generate fuel srv comb nonce' n) as [rest| |];
          cbn [bind] in Hg; try discriminate.
        injection Hg as <-.
        specialize (Hall 0%nat ltac:(lia)).
        rewrite Nat.mul_0_r, Nat.add_0_r, Hr in Hall. discriminate.
Qed.

Lemma generate_S fuel srv comb nonce k :
  generate fuel srv comb nonce (S k) =
  ('(d1, d2, nonce') <- rollDice fuel srv comb nonce ;;
   rest <- generate fuel srv comb nonce' k ;;
   Ret ((d1, d2) :: rest)).
Proof. reflexivity. Qed.

(** The loop stops at the first pair that differs, with the offset of
    that pair, the generated dice and the reported bytes less ['0']. *)
Lemma compareRolls_mismatch fuel srv comb rolls :
  forall j n i nonce gens d1 d2 r1 r2,
    (j < n)%nat ->
    generate fuel srv comb nonce (S j) = Ret gens ->
    (forall j', (j' < j)%nat ->
       reported rolls (i + 2 * j')
       = option_map digit_pair (nth_error gens j')) ->
    nth_error gens j = Some (d1, d2) ->
    reported rolls (i + 2 * j) = Some (r1, r2) ->
    (r1, r2) <> digit_pair (d1, d2) ->
    compareRolls fuel srv comb rolls n i nonce
    = Ret (Some (ErrRollMismatch (i + 2 * j) d1 d2
                                 (u8 (r1 - 48)) (u8 (r2 - 48)))).
Proof.
  induction j as [|j IH];
    intros n i nonce gens d1 d2 r1 r2 Hj Hg Hbefore Hnth Hr Hne;
    (destruct n as [|n]; [inversion Hj|]);
    rewrite generate_S in Hg;
    destruct (rollDice fuel srv comb nonce) as [[[e1 e2] nonce']| |] eqn:Hd;
    cbn [bind] in Hg; try discriminate;
    destruct (rollDice_faces _ _ _ _ _ _ _ Hd) as [He1 He2].
  - cbn [generate bind] in Hg. injection Hg as <-.
    cbn [nth_error] in Hnth. injection Hnth as -> ->.
    rewrite Nat.mul_0_r, Nat.add_0_r in Hr |- *.
    rewrite (compareRolls_turn _ _ _ _ _ _ _ _ _ _ _ _ Hr Hd).
    pose proof (mismatch_test d1 d2 r1 r2 He1 He2) as Ht.
    destruct (negb (u8 (u8 d1 + 48) =? r1) || negb (u8 (u8 d2 + 48) =? r2)).
    + reflexivity.
    + exfalso. apply Hne. apply Ht. reflexivity.
  - destruct (generate fuel srv comb nonce' (S j)) as [rest| |] eqn:Hrest;
      cbn [bind] in Hg; try discriminate.
    injection Hg as <-. cbn [nth_error] in Hnth.
    pose proof (Hbefore 0%nat ltac:(lia)) as H0.
    rewrite Nat.mul_0_r, Nat.add_0_r in H0. cbn in H0.
    rewrite (compareRolls_turn _ _ _ _ _ _ _ _ _ _ _ _ H0 Hd).
    cbn [fst snd].
    replace (negb (u8 (u8 e1 + 48) =? e1 + 48)
             || negb (u8 (u8 e2 + 48) =? e2 + 48)) with false
      by (symmetry; apply mismatch_test; auto).
    replace (i + 2 * S j)%nat with (i + 2 + 2 * j)%nat in * by lia.
    apply (IH n (i + 2)%nat nonce' rest); auto; try lia.
    intros j' Hj'. specialize (Hbefore (S j') ltac:(lia)).
    cbn [nth_error] in Hbefore. rewrite <- Hbefore. f_equal. lia.
Qed.

(** The only error the loop reports is a roll mismatch. *)
Lemma compareRolls_errors fuel srv comb rolls :
  forall n i nonce e,
    compareRolls fuel srv comb rolls n i nonce = Ret (Some e) ->
    kind_of e = RollMismatch.
Proof.
  induction n as [|n IH]; intros i nonce e H; [discriminate|].
  rewrite compareRolls_S in H.
  destruct (byte_at rolls i); cbn [bind] in H; try discriminate.
  destruct (byte_at rolls (i + 1)); cbn [bind] in H; try discriminate.
  destruct (rollDice fuel srv comb nonce) as [[[d1 d2] nonce']| |];
    cbn [bind] in H; try discriminate.
  destruct (negb _ || negb _).
  - injection H as <-. reflexivity.
  - eapply IH. exact H.
Qed.

(** ** [Verify] stage by stage *)

(** More fuel does not change a result. *)
Lemma generate_mono fuel fuel' srv comb :
  (fuel <= fuel')%nat ->
  forall k nonce gens,
    generate fuel srv comb nonce k = Ret gens ->
    generate fuel' srv comb nonce k = Ret gens.
Proof.
  intros Hle. induction k as [|k IH]; intros nonce gens H; [exact H|].
  rewrite generate_S in H |- *.
  destruct (rollDice fuel srv comb nonce) as [[[d1 d2] nonce']| |] eqn:Hd;
    cbn [bind] in H; try discriminate.
  rewrite (rollDice_mono _ _ _ _ _ _ Hd Hle). cbn [bind].
  destruct (generate fuel srv comb nonce' k) as [rest| |] eqn:Hr;
    cbn [bind] in H; try discriminate.
  rewrite (IH _ _ Hr). exact H.
Qed.

Lemma compareRolls_mono fuel fuel' srv comb rolls :
  (fuel <= fuel')%nat ->
  forall n i nonce r,
    compareRolls fuel srv comb rolls n i nonce = Ret r ->
    compareRolls fuel' srv comb rolls n i nonce = Ret r.
Proof.
  intros Hle. induction n as [|n IH]; intros i nonce r H; [exact H|].
  rewrite compareRolls_S in H |- *.
  destruct (byte_at rolls i); cbn [bind] in *; try discriminate.
  destruct (byte_at rolls (i + 1)); cbn [bind] in *; try discriminate.
  destruct (rollDice fuel srv comb nonce) as [[[d1 d2] nonce']| |] eqn:Hd;
    cbn [bind] in H; try discriminate.
  rewrite (rollDice_mono _ _ _ _ _ _ Hd Hle). cbn [bind].
  destruct (negb _ || negb _); [exact H | apply IH; exact H].
Qed.

Lemma Verify_mono fuel fuel' rep r :
  (fuel <= fuel')%nat ->
  Verify fuel rep = Ret r -> Verify fuel' rep = Ret r.
Proof.
  intros Hle. unfold Verify.
  destruct (negb (length (Players rep) =? 2)%nat); [auto|].
  destruct (negb (String.length (Rolls rep) mod 2 =? 0)%nat); [auto|].
  destruct (decodeHex (ServerSeed rep) "serverSeed") as [srv|e]; [|auto].
  destruct (negb (sha256Hex srv =? ServerSeedHash rep)%string); [auto|].
  destruct (elem_at (Players rep) 0) as [p0| |]; cbn [bind]; auto.
  destruct (elem_at (Players rep) 1) as [p1| |]; cbn [bind]; auto.
  destruct (combinedSeed p0 p1) as [comb|e]; [|auto].
  apply compareRolls_mono. exact Hle.
Qed.

Lemma even_mod2 n : Nat.Even n <-> (n mod 2 = 0)%nat.
Proof.
  split.
  - intros [k ->]. rewrite Nat.mul_comm. apply Nat.Div0.mod_mul.
  - intros H. exists (n / 2)%nat.
    pose proof (Nat.Div0.div_mod n 2). lia.
Qed.

Lemma trips_even n : Nat.Even n -> trips n = (n / 2)%nat.
Proof.
  intros [k ->]. unfold trips. rewrite Nat.div2_div.
  rewrite (Nat.mul_comm 2 k), Nat.div_mul by lia.
  replace (S (k * 2)) with (1 + k * 2)%nat by lia.
  rewrite Nat.div_add by lia. reflexivity.
Qed.

Lemma Verify_players fuel rep :
  length (Players rep) <> 2%nat ->
  Verify fuel rep = Ret (Some ErrPlayerCount).
Proof.
  intros H. unfold Verify.
  apply Nat.eqb_neq in H. rewrite H. reflexivity.
Qed.

Lemma Verify_parity fuel rep :
  length (Players rep) = 2%nat ->
  Nat.Odd (String.length (Rolls rep)) ->
  Verify fuel rep = Ret (Some ErrOddRolls).
Proof.
  intros Hp Ho. unfold Verify. rewrite Hp. cbn [Nat.eqb negb].
  replace (String.length (Rolls rep) mod 2 =? 0)%nat with false.
  - reflexivity.
  - symmetry. apply Nat.eqb_neq. intros Hm. apply even_mod2 in Hm.
    apply (Nat.Even_Odd_False _ Hm Ho).
Qed.

(** Past the two structural checks. *)
Lemma Verify_structural_ok fuel rep :
  length (Players rep) = 2%nat ->
  Nat.Even (String.length (Rolls rep)) ->
  Verify fuel rep =
  match decodeHex (ServerSeed rep) "serverSeed" with
  | Err e => Ret (Some e)
  | Ok srvSeed =>
      if negb (String.eqb (sha256Hex srvSeed) (ServerSeedHash rep))
      then Ret (Some ErrServerHash)
      else
        p0 <- elem_at (Players rep) 0 ;;
        p1 <- elem_at (Players rep) 1 ;;
        match combinedSeed p0 p1 with
        | Err e => Ret (Some e)
        | Ok combined =>
            compareRolls fuel srvSeed combined (Rolls rep)
                         (String.length (Rolls rep) / 2) 0 0
        end
  end.
Proof.
  intros Hp He. unfold Verify. rewrite Hp. cbn [Nat.eqb negb].
  rewrite trips_even by assumption.
  apply even_mod2 in He. rewrite He. reflexivity.
Qed.

Lemma Verify_server_hex fuel rep :
  length (Players rep) = 2%nat ->
  Nat.Even (String.length (Rolls rep)) ->
  hex.DecodeString (ServerSeed rep) = None ->
  Verify fuel rep = Ret (Some (ErrNotHex "serverSeed")).
Proof.
  intros Hp He Hd. rewrite Verify_structural_ok by assumption.
  unfold decodeHex. rewrite Hd. reflexivity.
Qed.

Lemma Verify_commitment fuel rep srv :
  length (Players rep) = 2%nat ->
  Nat.Even (String.length (Rolls rep)) ->
  hex.DecodeString (ServerSeed rep) = Some srv ->
  sha256Hex srv <> ServerSeedHash rep ->
  Verify fuel rep = Ret (Some ErrServerHash).
Proof.
  intros Hp He Hd Hh. rewrite Verify_structural_ok by assumption.
  unfold decodeHex. rewrite Hd.
  apply String.eqb_neq in Hh. rewrite Hh. reflexivity.
Qed.

(** Past the commitment check. *)
Lemma Verify_committed fuel rep a b srv :
  Players rep = [a; b] ->
  Nat.Even (String.length (Rolls rep)) ->
  hex.DecodeString (ServerSeed rep) = Some srv ->
  sha256Hex srv = ServerSeedHash rep ->
  Verify fuel rep =
  match combinedSeed a b with
  | Err e => Ret (Some e)
  | Ok combined =>
      compareRolls fuel srv combined (Rolls rep)
                   (String.length (Rolls rep) / 2) 0 0
  end.
Proof.
  intros Hp He Hd Hh.
  rewrite Verify_structural_ok by (rewrite ?Hp; auto).
  unfold decodeHex. rewrite Hd.
  apply String.eqb_eq in Hh. rewrite Hh, Hp. reflexivity.
Qed.

Lemma combinedSeed_error a b :
  hex.DecodeString (ClientSeed a) = None
  \/ hex.DecodeString (ClientSeed b) = None ->
  combinedSeed a b = Err (ErrNotHex "clientSeed").
Proof.
  intros H. unfold combinedSeed, decodeHex.
  destruct (String.ltb _ (strconv.FormatInt (UID a)));
    destruct (hex.DecodeString (ClientSeed a)),
             (hex.DecodeString (ClientSeed b));
    try reflexivity; destruct H; discriminate.
Qed.

Lemma combinedSeed_ok a b ha hb :
  hex.DecodeString (ClientSeed a) = Some ha ->
  hex.DecodeString (ClientSeed b) = Some hb ->
  exists comb, combinedSeed a b = Ok comb /\ length comb = 32%nat.
Proof.
  intros Ha Hb. unfold combinedSeed, decodeHex.
  destruct (String.ltb _ (strconv.FormatInt (UID a)));
    rewrite Ha, Hb; eexists; (split; [reflexivity | apply Sum256_length]).
Qed.

(** ** Run-time panics *)

(** None of the indexings can fail: the block always holds 32 bytes, the
    roll string has even length and the player list two entries. *)
Lemma drawDie_no_panic fuel key prefix g :
  drawDie fuel key prefix g <> Panic.
Proof.
  revert g. induction fuel as [|fuel IH]; intros g; [discriminate|].
  rewrite (drawDie_ready (S fuel)).
  assert (Hin : (g_idx (ready key prefix g)
                 < length (g_pool (ready key prefix g)))%nat).
  { unfold ready.
    destruct (Nat.leb_spec (length (g_pool g)) (g_idx g)); [|assumption].
    cbn [refill g_pool g_idx]. rewrite block_at_length. lia. }
  destruct (nth_error (g_pool (ready key prefix g))
                      (g_idx (ready key prefix g))) as [v|] eqn:Hv.
  - rewrite (drawDie_read _ _ _ _ _ Hv).
    destruct (v <? 252); [discriminate | apply IH].
  - apply nth_error_None in Hv. lia.
Qed.

Lemma rollDice_no_panic fuel key prefix nonce :
  rollDice fuel key prefix nonce <> Panic.
Proof.
  rewrite rollDice_eq.
  destruct (drawDie fuel key prefix _) as [[d1 g1]| |] eqn:H1;
    cbn [bind]; try discriminate.
  - destruct (drawDie fuel key prefix g1) as [[d2 g2]| |] eqn:H2;
      cbn [bind]; try discriminate.
    exfalso. exact (drawDie_no_panic _ _ _ _ H2).
  - exfalso. exact (drawDie_no_panic _ _ _ _ H1).
Qed.

Lemma byte_at_in_range s i :
  (i < String.length s)%nat -> exists r, byte_at s i = Ret r.
Proof.
  unfold byte_at. revert i. induction s as [|c s IH]; intros i Hi.
  - inversion Hi.
  - destruct i as [|i]; cbn [String.get].
    + eauto.
    + apply IH. cbn [String.length] in Hi. lia.
Qed.

Lemma compareRolls_no_panic fuel srv comb rolls :
  forall n i nonce,
    (i + 2 * n <= String.length rolls)%nat ->
    compareRolls fuel srv comb rolls n i nonce <> Panic.
Proof.
  induction n as [|n IH]; intros i nonce Hlen; [discriminate|].
  rewrite compareRolls_S.
  destruct (byte_at_in_range rolls i ltac:(lia)) as [r1 ->].
  destruct (byte_at_in_range rolls (i + 1) ltac:(lia)) as [r2 ->].
  cbn [bind].
  destruct (rollDice fuel srv comb nonce) as [[[d1 d2] nonce']| |] eqn:Hd;
    cbn [bind]; try discriminate.
  - destruct (negb _ || negb _); [discriminate|]. apply IH. lia.
  - exfalso. exact (rollDice_no_panic _ _ _ _ Hd).
Qed.

Lemma Verify_no_panic fuel rep : Verify fuel rep <> Panic.
Proof.
  destruct (Nat.eq_dec (length (Players rep)) 2) as [Hp|Hp].
  2:{ rewrite (Verify_players fuel rep Hp). discriminate. }
  destruct (Nat.Even_or_Odd (String.length (Rolls rep))) as [He|Ho].
  2:{ rewrite (Verify_parity fuel rep Hp Ho). discriminate. }
  rewrite (Verify_structural_ok fuel rep Hp He).
  destruct (decodeHex (ServerSeed rep) "serverSeed") as [srv|e];
    [|discriminate].
  destruct (negb (sha256Hex srv =? ServerSeedHash rep)%string);
    [discriminate|].
  destruct (Players rep) as [|a [|b [|c l]]]; try discriminate.
  cbn [elem_at nth_error bind].
  destruct (combinedSeed a b) as [comb|e]; [|discriminate].
  apply compareRolls_no_panic.
  destruct He as [k Hk]. rewrite Hk.
  rewrite (Nat.mul_comm 2 k), Nat.div_mul by lia. lia.
Qed.

(** ** End-to-end verification *)

(** C1 (end-to-end verification).  For a report with two players, a roll
    string of even length, a server seed that decodes and matches its
    commitment, and client seeds that decode: [Verify] returns [nil]
    exactly when the generator, started at nonce 0, yields one roll for
    every two characters and each reported pair shows the digits of the
    roll generated for it, in order.  When the pair at roll [j] is the
    first that differs, [Verify] returns the mismatch error with the
    character offset [2 * j], the generated dice and the reported bytes
    (less ['0']), and generates nothing beyond roll [j].  A result
    obtained with some [fuel] is the result for every larger one. *)
Theorem C1_end_to_end (fuel : nat) (rep : Report) (a b : PlayerEntry)
    (srv comb : list Z) :
  Players rep = [a; b] ->
  Nat.Even (String.length (Rolls rep)) ->
  decodeHex (ServerSeed rep) "serverSeed" = Ok srv ->
  sha256Hex srv = ServerSeedHash rep ->
  combinedSeed a b = Ok comb ->
  (Verify fuel rep = Ret None <->
   exists gens,
     generate fuel srv comb 0 (String.length (Rolls rep) / 2) = Ret gens
     /\ forall j, (j < String.length (Rolls rep) / 2)%nat ->
          reported (Rolls rep) (2 * j)
          = option_map digit_pair (nth_error gens j))
  /\ (forall j gens d1 d2 r1 r2,
        (j < String.length (Rolls rep) / 2)%nat ->
        generate fuel srv comb 0 (S j) = Ret gens ->
        (forall j', (j' < j)%nat ->
           reported (Rolls rep) (2 * j')
           = option_map digit_pair (nth_error gens j')) ->
        nth_error gens j = Some (d1, d2) ->
        reported (Rolls rep) (2 * j) = Some (r1, r2) ->
        (r1, r2) <> digit_pair (d1, d2) ->
        Verify fuel rep
        = Ret (Some (ErrRollMismatch (2 * j) d1 d2
                                     (u8 (r1 - 48)) (u8 (r2 - 48)))))
  /\ (forall fuel' r,
        (fuel <= fuel')%nat ->
        Verify fuel rep = Ret r -> Verify fuel' rep = Ret r).
Proof.
  intros Hp He Hd Hh Hc.
  assert (Hd' : hex.DecodeString (ServerSeed rep) = Some srv).
  { unfold decodeHex in Hd.
    destruct (hex.DecodeString (ServerSeed rep)); congruence. }
  assert (Hv : Verify fuel rep
               = compareRolls fuel srv comb (Rolls rep)
                              (String.length (Rolls rep) / 2) 0 0).
  { rewrite (Verify_committed fuel rep a b srv Hp He Hd' Hh), Hc.
    reflexivity. }
  split; [|split].
  - rewrite Hv.
    apply (compareRolls_ok fuel srv comb (Rolls rep) _ 0%nat 0).
  - intros j gens d1 d2 r1 r2 Hj Hg Hbefore Hnth Hr Hne. rewrite Hv.
    apply (compareRolls_mismatch fuel srv comb (Rolls rep) j _ 0%nat 0 gens);
      auto.
  - intros fuel' r Hle. apply Verify_mono. exact Hle.
Qed.

(** The sample report verifies: its rolls 61 and 13 are the ones the
    generator yields at nonces 0 and 1.  With 14 in place of 13 the error
    names the offset 2, the generated (1,3) and the reported (1,4). *)
Lemma C1_end_to_end_witness :
  Verify 1 sample_report = Ret None
  /\ Verify 1 (with_rolls sample_report "6114")
     = Ret (Some (ErrRollMismatch 2 1 3 1 4)).
Proof.
  split.
  - refine (proj2 (proj1 (C1_end_to_end 1 sample_report sample_a sample_b
                            sample_key sample_combined _ _ _ _ _)) _).
    + reflexivity.
    + exists 2%nat. reflexivity.
    + vm_compute. reflexivity.
    + vm_compute. reflexivity.
    + vm_compute. reflexivity.
    + exists [(6, 1); (1, 3)]. split.
      * vm_compute. reflexivity.
      * intros [|[|j]] Hj; [reflexivity | reflexivity |].
        exfalso. cbn in Hj. lia.
  - refine (proj1 (proj2 (C1_end_to_end 1 (with_rolls sample_report "6114")
                            sample_a sample_b sample_key sample_combined
                            _ _ _ _ _))
              1%nat [(6, 1); (1, 3)] 1 3 49 52 _ _ _ _ _ _).
    + reflexivity.
    + exists 2%nat. reflexivity.
    + vm_compute. reflexivity.
    + vm_compute. reflexivity.
    + vm_compute. reflexivity.
    + cbn. lia.
    + vm_compute. reflexivity.
    + intros [|j'] Hj'; [reflexivity | lia].
    + reflexivity.
    + reflexivity.
    + discriminate.
Defined.

Example sample_mismatch_message :
  Error (ErrRollMismatch 2 1 3 1 4)
  = "roll 2 mismatch: expected (1,3), but got(1,4)"%string.
Proof. vm_compute. reflexivity. Qed.

(** ** Errors and their order *)

(** C7 (error taxonomy and first-violation order).  [Verify] checks, in
    this order, the player count, the parity of the roll string, the hex
    of the server seed, the commitment, the hex of the client seeds and
    the rolls; the first check that fails decides the result, whatever
    the later fields hold and before any roll is generated (the results
    below hold for every [fuel], 0 included).  A wrong player count and an
    odd roll string are structural errors, an undecodable seed is an
    encoding error, and once the seeds decode only a roll mismatch can
    still be reported. *)
Theorem C7_error_order (fuel : nat) (rep : Report) :
  (length (Players rep) <> 2%nat ->
     Verify fuel rep = Ret (Some ErrPlayerCount))
  /\ (length (Players rep) = 2%nat ->
      Nat.Odd (String.length (Rolls rep)) ->
      Verify fuel rep = Ret (Some ErrOddRolls))
  /\ (length (Players rep) = 2%nat ->
      Nat.Even (String.length (Rolls rep)) ->
      hex.DecodeString (ServerSeed rep) = None ->
      Verify fuel rep = Ret (Some (ErrNotHex "serverSeed")))
  /\ (forall srv,
      length (Players rep) = 2%nat ->
      Nat.Even (String.length (Rolls rep)) ->
      hex.DecodeString (ServerSeed rep) = Some srv ->
      sha256Hex srv <> ServerSeedHash rep ->
      Verify fuel rep = Ret (Some ErrServerHash))
  /\ (forall a b srv,
      Players rep = [a; b] ->
      Nat.Even (String.length (Rolls rep)) ->
      hex.DecodeString (ServerSeed rep) = Some srv ->
      sha256Hex srv = ServerSeedHash rep ->
      hex.DecodeString (ClientSeed a) = None
      \/ hex.DecodeString (ClientSeed b) = None ->
      Verify fuel rep = Ret (Some (ErrNotHex "clientSeed")))
  /\ (forall a b srv comb,
      Players rep = [a; b] ->
      Nat.Even (String.length (Rolls rep)) ->
      hex.DecodeString (ServerSeed rep) = Some srv ->
      sha256Hex srv = ServerSeedHash rep ->
      combinedSeed a b = Ok comb ->
      Verify fuel rep
      = compareRolls fuel srv comb (Rolls rep)
                     (String.length (Rolls rep) / 2) 0 0
      /\ forall e, Verify fuel rep = Ret (Some e) -> kind_of e = RollMismatch)
  /\ (kind_of ErrPlayerCount = StructuralViolation
      /\ kind_of ErrOddRolls = StructuralViolation
      /\ kind_of (ErrNotHex "serverSeed") = InvalidEncoding
      /\ kind_of (ErrNotHex "clientSeed") = InvalidEncoding
      /\ kind_of ErrServerHash = CommitmentMismatch).
Proof.
  split; [apply Verify_players|].
  split; [apply Verify_parity|].
  split; [apply Verify_server_hex|].
  split; [intros srv; apply Verify_commitment|].
  split; [|split].
  - intros a b srv Hp He Hd Hh Hc.
    rewrite (Verify_committed fuel rep a b srv Hp He Hd Hh).
    rewrite (combinedSeed_error a b Hc). reflexivity.
  - intros a b srv comb Hp He Hd Hh Hc.
    rewrite (Verify_committed fuel rep a b srv Hp He Hd Hh), Hc.
    split; [reflexivity|].
    intros e. apply compareRolls_errors.
  - repeat split.
Qed.

(** Three players; an odd roll string; a client seed that is not hex, in
    a report whose rolls are wrong as well. *)
Lemma C7_error_order_witness :
  Verify 0 (with_players sample_report [sample_a; sample_b; sample_a])
  = Ret (Some ErrPlayerCount)
  /\ Verify 0 (with_rolls sample_report "611")
     = Ret (Some ErrOddRolls)
  /\ Verify 0 (with_players (with_rolls sample_report "1111")
                 [sample_a; mkPlayerEntry 1002 "xyz" "player"])
     = Ret (Some (ErrNotHex "clientSeed")).
Proof.
  split; [|split].
  - refine (proj1 (C7_error_order 0 _) _). cbn. lia.
  - refine (proj1 (proj2 (C7_error_order 0 _)) _ _).
    + reflexivity.
    + exists 1%nat. reflexivity.
  - refine (proj1 (proj2 (proj2 (proj2 (proj2 (C7_error_order 0 _)))))
              sample_a (mkPlayerEntry 1002 "xyz" "player") sample_key
              _ _ _ _ _).
    + reflexivity.
    + exists 2%nat. reflexivity.
    + vm_compute. reflexivity.
    + vm_compute. reflexivity.
    + right. reflexivity.
Defined.

(** ** Provenance *)

Lemma combinedSeed_source a a' b b' :
  same_entry_but_source a a' -> same_entry_but_source b b' ->
  combinedSeed a b = combinedSeed a' b'.
Proof.
  intros [Hu Hs] [Hu' Hs']. unfold combinedSeed.
  rewrite Hu, Hs, Hu', Hs'. reflexivity.
Qed.

(** C8 (provenance noninterference).  Two reports that differ only in the
    [source] fields of their players get the same result from [Verify]:
    the same [nil] or the same error with the same arguments. *)
Theorem C8_provenance_noninterference (fuel : nat) (r r' : Report) :
  same_but_source r r' -> Verify fuel r = Verify fuel r'.
Proof.
  intros (_ & Hs & Hh & Hr & Hp). unfold Verify.
  rewrite <- Hs, <- Hh, <- Hr.
  rewrite <- (Forall2_length Hp).
  destruct (negb (length (Players r) =? 2)%nat) eqn:Hlen; [reflexivity|].
  destruct (negb (String.length (Rolls r) mod 2 =? 0)%nat); [reflexivity|].
  destruct (decodeHex (ServerSeed r) "serverSeed") as [srv|e]; [|reflexivity].
  destruct (negb (sha256Hex srv =? ServerSeedHash r)%string); [reflexivity|].
  destruct Hp as [|a a' l l' Ha Hl]; [reflexivity|].
  destruct Hl as [|b b' l l' Hb Hl]; [reflexivity|].
  cbn [elem_at nth_error bind].
  rewrite (combinedSeed_source a a' b b' Ha Hb). reflexivity.
Qed.

Lemma C8_provenance_noninterference_witness :
  Verify 1 sample_report
  = Verify 1 (with_players sample_report
                [mkPlayerEntry 1001 "00112233445566778899aabbccddeeff"
                               "fallback";
                 mkPlayerEntry 1002 "ffeeddccbbaa99887766554433221100"
                               "player"]).
Proof.
  apply C8_provenance_noninterference.
  unfold same_but_source, same_entry_but_source, sample_report, with_players.
  cbn. repeat split; repeat constructor.
Defined.

(** ** Hex decoding *)

Lemma fromHexChar_None c :
  hex.fromHexChar c = None <-> is_hex_digit c = false.
Proof.
  destruct c as [[] [] [] [] [] [] [] []]; vm_compute; split; congruence.
Qed.

(** Induction on a string two characters at a time. *)
Lemma string_pair_ind (P : string -> Prop) :
  P EmptyString ->
  (forall c, P (String c EmptyString)) ->
  (forall c1 c2 s, P s -> P (String c1 (String c2 s))) ->
  forall s, P s.
Proof.
  intros H0 H1 H2 s.
  assert (H : P s /\ forall c, P (String c s)).
  { induction s as [|c' s [IH1 IH2]].
    - split; [exact H0 | exact H1].
    - split; [apply IH2 | intros c; apply H2; exact IH1]. }
  apply H.
Qed.

Lemma DecodeString_None s :
  hex.DecodeString s = None <->
  Nat.Odd (String.length s)
  \/ exists c, In c (list_ascii_of_string s) /\ is_hex_digit c = false.
Proof.
  induction s as [|c|c1 c2 s IH] using string_pair_ind.
  - cbn. split; [discriminate|].
    intros [[k Hk] | (c & [] & _)]. lia.
  - cbn. split; [intros _|reflexivity]. left. exists 0%nat. reflexivity.
  - cbn [hex.DecodeString String.length list_ascii_of_string].
    destruct (hex.fromHexChar c1) as [v1|] eqn:H1.
    + destruct (hex.fromHexChar c2) as [v2|] eqn:H2.
      * assert (Hn1 : is_hex_digit c1 = true).
        { destruct (is_hex_digit c1) eqn:E; [reflexivity|].
          apply fromHexChar_None in E. congruence. }
        assert (Hn2 : is_hex_digit c2 = true).
        { destruct (is_hex_digit c2) eqn:E; [reflexivity|].
          apply fromHexChar_None in E. congruence. }
        destruct (hex.DecodeString s) as [bs|].
        -- split; [discriminate|].
           intros [Hodd | (c & Hin & Hc)].
           ++ assert (Hs : Nat.Odd (String.length s)).
              { destruct Hodd as [k Hk]. exists (k - 1)%nat. lia. }
              destruct IH as [_ IH].
              specialize (IH (or_introl Hs)). discriminate.
           ++ destruct Hin as [<-|[<-|Hin]]; try congruence.
              destruct IH as [_ IH].
              assert (HN : Some bs = None); [|discriminate].
              apply IH. right. exists c. auto.
        -- split; [intros _|reflexivity].
           destruct IH as [IH _]. destruct (IH eq_refl) as [[k Hk]|(c & Hin & Hc)].
           ++ left. exists (S k). lia.
           ++ right. exists c. split; [right; right; exact Hin | exact Hc].
      * split; [intros _|reflexivity]. right. exists c2.
        split; [right; left; reflexivity | apply fromHexChar_None; exact H2].
    + split; [intros _|reflexivity]. right. exists c1.
      split; [left; reflexivity | apply fromHexChar_None; exact H1].
Qed.

Lemma DecodeString_length s bs :
  hex.DecodeString s = Some bs -> String.length s = (2 * length bs)%nat.
Proof.
  revert bs. induction s as [|c|c1 c2 s IH] using string_pair_ind; intros bs.
  - intros [= <-]. reflexivity.
  - discriminate.
  - cbn [hex.DecodeString String.length].
    destruct (hex.fromHexChar c1); [|discriminate].
    destruct (hex.fromHexChar c2); [|discriminate].
    destruct (hex.DecodeString s) as [bs'|]; [|discriminate].
    intros [= <-]. cbn [length]. rewrite (IH bs' eq_refl). lia.
Qed.

(** Each byte is recovered from its two hex digits. *)
Lemma decode_encode_byte v :
  is_byte v ->
  hex.DecodeString (hex.EncodeToString [v]) = Some [v].
Proof.
  intros Hv.
  assert (Hall : forallb (fun v =>
            match hex.DecodeString (hex.EncodeToString [v]) with
            | Some [w] => w =? v
            | _ => false
            end) byte_values = true) by (vm_compute; reflexivity).
  rewrite forallb_forall in Hall.
  assert (Hin : In v byte_values).
  { unfold byte_values. apply in_map_iff. exists (Z.to_nat v).
    unfold is_byte in Hv. split; [lia|]. apply in_seq. lia. }
  specialize (Hall v Hin).
  destruct (hex.DecodeString (hex.EncodeToString [v])) as [[|w [|? ?]]|];
    try discriminate.
  apply Z.eqb_eq in Hall. subst. reflexivity.
Qed.

(** Every byte sequence, of any length, is what its hex encoding decodes
    to. *)
Lemma decode_encode bs :
  Forall is_byte bs ->
  hex.DecodeString (hex.EncodeToString bs) = Some bs.
Proof.
  induction 1 as [|v bs Hv Hbs IH]; [reflexivity|].
  pose proof (decode_encode_byte v Hv) as H1.
  cbn [hex.EncodeToString hex.DecodeString] in H1 |- *.
  destruct (hex.fromHexChar (hex.digit (Z.shiftr v 4))); [|discriminate].
  destruct (hex.fromHexChar (hex.digit (Z.land v 15))); [|discriminate].
  rewrite IH. injection H1 as H1. do 2 f_equal. exact H1.
Qed.

Lemma Verify_not_server_hex fuel rep srv :
  hex.DecodeString (ServerSeed rep) = Some srv ->
  Verify fuel rep <> Ret (Some (ErrNotHex "serverSeed")).
Proof.
  intros Hd H. unfold Verify in H.
  destruct (negb (length (Players rep) =? 2)%nat); [discriminate|].
  destruct (negb (String.length (Rolls rep) mod 2 =? 0)%nat); [discriminate|].
  unfold decodeHex in H at 1. rewrite Hd in H.
  destruct (negb (sha256Hex srv =? ServerSeedHash rep)%string);
    [discriminate|].
  destruct (elem_at (Players rep) 0) as [p0| |]; cbn [bind] in H;
    try discriminate.
  destruct (elem_at (Players rep) 1) as [p1| |]; cbn [bind] in H;
    try discriminate.
  destruct (combinedSeed p0 p1) as [comb|e] eqn:Hc.
  - apply compareRolls_errors in H. discriminate.
  - unfold combinedSeed, decodeHex in Hc.
    destruct (String.ltb _ _), (String.ltb _ _),
      (hex.DecodeString (ClientSeed p0)), (hex.DecodeString (ClientSeed p1));
      try discriminate; injection Hc as <-; discriminate.
Qed.

(** C10 (seed lengths are never enforced).  A hex field fails to decode
    exactly when its length is odd or it holds a character that is not a
    hex digit of either case; [Verify] reports the encoding error of the
    server seed, respectively of a client seed, exactly when that decoding
    fails (at the stage that decodes it).  Whatever decodes is accepted:
    the decoded seed has half as many bytes as the field has characters,
    every byte sequence of any length is the decoding of its hex form, and
    [Verify] goes on to compare the rolls with the decoded bytes without
    ever looking at their number. *)
Theorem C10_seed_lengths_not_enforced :
  (forall s,
     hex.DecodeString s = None <->
     Nat.Odd (String.length s)
     \/ exists c, In c (list_ascii_of_string s) /\ is_hex_digit c = false)
  /\ (forall fuel rep,
        length (Players rep) = 2%nat ->
        Nat.Even (String.length (Rolls rep)) ->
        (Verify fuel rep = Ret (Some (ErrNotHex "serverSeed")) <->
         hex.DecodeString (ServerSeed rep) = None))
  /\ (forall fuel rep a b srv,
        Players rep = [a; b] ->
        Nat.Even (String.length (Rolls rep)) ->
        hex.DecodeString (ServerSeed rep) = Some srv ->
        sha256Hex srv = ServerSeedHash rep ->
        (Verify fuel rep = Ret (Some (ErrNotHex "clientSeed")) <->
         hex.DecodeString (ClientSeed a) = None
         \/ hex.DecodeString (ClientSeed b) = None))
  /\ (forall fuel rep a b srv ha hb,
        Players rep = [a; b] ->
        Nat.Even (String.length (Rolls rep)) ->
        hex.DecodeString (ServerSeed rep) = Some srv ->
        sha256Hex srv = ServerSeedHash rep ->
        hex.DecodeString (ClientSeed a) = Some ha ->
        hex.DecodeString (ClientSeed b) = Some hb ->
        exists comb,
          combinedSeed a b = Ok comb
          /\ Verify fuel rep
             = compareRolls fuel srv comb (Rolls rep)
                            (String.length (Rolls rep) / 2) 0 0)
  /\ (forall s bs,
        hex.DecodeString s = Some bs ->
        String.length s = (2 * length bs)%nat)
  /\ (forall bs,
        Forall is_byte bs ->
        hex.DecodeString (hex.EncodeToString bs) = Some bs)
  /\ hex.DecodeString "" = Some []
  /\ hex.DecodeString "ABCDEF" = Some [171; 205; 239]
  /\ Verify 1 (mkReport "short" ""
       "e3b0c44298fc1c149afbf4c8996fb92427ae41e4649b934ca495991b7852b855"
       "6653"
       [mkPlayerEntry 7 "" "player"; mkPlayerEntry 8 "ABCDEF" "player"])
     = Ret None.
Proof.
  split; [apply DecodeString_None|].
  split.
  { intros fuel rep Hp He. split.
    - intros H. destruct (hex.DecodeString (ServerSeed rep)) as [srv|] eqn:Hd;
        [|reflexivity].
      exfalso. exact (Verify_not_server_hex fuel rep srv Hd H).
    - apply Verify_server_hex; assumption. }
  split.
  { intros fuel rep a b srv Hp He Hd Hh.
    rewrite (Verify_committed fuel rep a b srv Hp He Hd Hh).
    split.
    - intros H.
      destruct (hex.DecodeString (ClientSeed a)) as [ha|] eqn:Ha; [|auto].
      destruct (hex.DecodeString (ClientSeed b)) as [hb|] eqn:Hb; [|auto].
      exfalso.
      destruct (combinedSeed_ok a b ha hb Ha Hb) as (comb & Hc & _).
      rewrite Hc in H. apply compareRolls_errors in H. discriminate.
    - intros H. rewrite (combinedSeed_error a b H). reflexivity. }
  split.
  { intros fuel rep a b srv ha hb Hp He Hd Hh Ha Hb.
    destruct (combinedSeed_ok a b ha hb Ha Hb) as (comb & Hc & _).
    exists comb. split; [exact Hc|].
    rewrite (Verify_committed fuel rep a b srv Hp He Hd Hh), Hc.
    reflexivity. }
  split; [apply DecodeString_length|].
  split; [apply decode_encode|].
  split; [reflexivity|].
  split; vm_compute; reflexivity.
Qed.

(** The sample report with a client seed of five characters, and with
    one holding a [g]. *)
Lemma C10_seed_lengths_not_enforced_witness :
  Verify 0 (with_players sample_report
              [sample_a; mkPlayerEntry 1002 "abcde" "player"])
  = Ret (Some (ErrNotHex "clientSeed"))
  /\ hex.DecodeString "0g" = None.
Proof.
  split.
  - refine (proj2 (proj1 (proj2 (proj2 C10_seed_lengths_not_enforced))
                     0%nat _ sample_a (mkPlayerEntry 1002 "abcde" "player")
                     sample_key _ _ _ _) _).
    + reflexivity.
    + exists 2%nat. reflexivity.
    + vm_compute. reflexivity.
    + vm_compute. reflexivity.
    + right. reflexivity.
  - refine (proj2 (proj1 C10_seed_lengths_not_enforced "0g"%string) _).
    right. exists "g"%char. split; [right; left; reflexivity | reflexivity].
Defined.

(** ** The seed mixer *)

Lemma FormatInt_inj (x y : Z) :
  strconv.FormatInt x = strconv.FormatInt y -> x = y.
Proof.
  unfold strconv.FormatInt. intros H.
  assert (Hn : forall z, Z.to_int z <> Decimal.Pos Decimal.Nil
                         /\ Z.to_int z <> Decimal.Neg Decimal.Nil).
  { intros [|p|p]; unfold Z.to_int; split; try discriminate.
    all: intros [= E]; exact (DecimalPos.Unsigned.to_uint_nonnil p E). }
  apply DecimalZ.to_int_inj.
  assert (E : Some (Z.to_int x) = Some (Z.to_int y)).
  { rewrite <- (NilZero.isi (Z.to_int x)) by apply Hn.
    rewrite <- (NilZero.isi (Z.to_int y)) by apply Hn.
    rewrite H. reflexivity. }
  congruence.
Qed.

(** The three ways two strings compare. *)
Lemma ltb_cases s t :
  (String.ltb s t = true /\ String.ltb t s = false /\ s <> t)
  \/ (String.ltb s t = false /\ String.ltb t s = true /\ s <> t)
  \/ (String.ltb s t = false /\ String.ltb t s = false /\ s = t).
Proof.
  unfold String.ltb. rewrite (String.compare_antisym t s).
  destruct (String.compare s t) eqn:E; cbn.
  - right; right. apply String.compare_eq_iff in E. auto.
  - left. do 2 (split; [reflexivity|]). intros ->.
    pose proof (String.compare_antisym t t) as A.
    rewrite E in A. discriminate A.
  - right; left. do 2 (split; [reflexivity|]). intros ->.
    pose proof (String.compare_antisym t t) as A.
    rewrite E in A. discriminate A.
Qed.

(** [combinedSeed] in terms of its one ordering. *)
Lemma combinedSeed_canonical a b :
  combinedSeed a b =
  let '(l, r) := canonical a b in
  match decodeHex (ClientSeed l) "clientSeed",
        decodeHex (ClientSeed r) "clientSeed" with
  | Ok hl, Ok hr =>
      Ok (sha256.Sum256
            (bytes_of_string (strconv.FormatInt (UID l) ++ ":"
                              ++ strconv.FormatInt (UID r) ++ ":")
             ++ hl ++ [58] ++ hr))
  | _, _ => Err (ErrNotHex "clientSeed")
  end.
Proof.
  unfold combinedSeed, canonical.
  destruct (ltb_cases (strconv.FormatInt (UID a)) (strconv.FormatInt (UID b)))
    as [(-> & -> & _) | [(-> & -> & _) | (-> & -> & E)]];
    cbn [negb]; try rewrite E; unfold decodeHex;
    repeat match goal with
           | |- context [hex.DecodeString ?s] => destruct (hex.DecodeString s)
           end;
    rewrite <- ?app_assoc; reflexivity.
Qed.

(** C2 as stated fails.  For the UIDs 9 and 10 the header is ["10:9:"],
    since ["10"] sorts before ["9"], and [combinedSeed] puts the seed of
    player 10 first as well; ordering the seeds by the numbers, 9 before
    10, gives another digest. *)
Lemma C2_counterexample :
  combinedSeed uid9 uid10
  = Ok (sha256.Sum256 (bytes_of_string "10:9:" ++ [187] ++ [58] ++ [170]))
  /\ combinedSeed_numeric_swap uid9 uid10
     = Ok (sha256.Sum256 (bytes_of_string "10:9:" ++ [170] ++ [58] ++ [187]))
  /\ combinedSeed uid9 uid10 <> combinedSeed_numeric_swap uid9 uid10.
Proof.
  split; [vm_compute; reflexivity|].
  split; [vm_compute; reflexivity|].
  intros H. vm_compute in H. discriminate H.
Qed.

(** C2, amended.  [combinedSeed] makes both ordering decisions by comparing
    the decimal strings of the UIDs, so they always agree: with [(l, r)]
    the pair [(b, a)] when the UID string of [b] sorts strictly before
    that of [a] and [(a, b)] otherwise, the combined seed is the SHA-256
    of ["<UID l>:<UID r>:"], the decoded seed of [l], a colon and the
    decoded seed of [r]; the numeric order of the UIDs plays no part. *)
Theorem C2_orderings_agree (a b : PlayerEntry) :
  combinedSeed a b =
  let '(l, r) := canonical a b in
  match decodeHex (ClientSeed l) "clientSeed",
        decodeHex (ClientSeed r) "clientSeed" with
  | Ok hl, Ok hr =>
      Ok (sha256.Sum256
            (bytes_of_string (strconv.FormatInt (UID l) ++ ":"
                              ++ strconv.FormatInt (UID r) ++ ":")
             ++ hl ++ [58] ++ hr))
  | _, _ => Err (ErrNotHex "clientSeed")
  end.
Proof. apply combinedSeed_canonical. Qed.

Example canonical_9_10 :
  canonical uid9 uid10 = (uid10, uid9)
  /\ canonical uid10 uid9 = (uid10, uid9)
  /\ (UID uid9 <? UID uid10) = true.
Proof. repeat split. Qed.

Lemma combinedSeed_swap a b :
  UID a <> UID b \/ ClientSeed a = ClientSeed b ->
  combinedSeed a b = combinedSeed b a.
Proof.
  intros H. rewrite !combinedSeed_canonical. unfold canonical.
  destruct (ltb_cases (strconv.FormatInt (UID a)) (strconv.FormatInt (UID b)))
    as [(-> & -> & _) | [(-> & -> & _) | (-> & -> & E)]]; try reflexivity.
  destruct H as [H | H].
  - exfalso. apply H. apply FormatInt_inj. exact E.
  - rewrite E, H. reflexivity.
Qed.

(** C3 as stated fails.  Two players with the same UID and different
    seeds are mixed in the order they are given: the two combined seeds
    differ, and a report that verifies with one order of its players
    fails with the other. *)
Lemma C3_counterexample :
  combinedSeed twin_a twin_b <> combinedSeed twin_b twin_a
  /\ Verify 1 (mkReport "twins" "" sha256_of_empty "11" [twin_b; twin_a])
     = Ret None
  /\ Verify 1 (mkReport "twins" "" sha256_of_empty "11" [twin_a; twin_b])
     = Ret (Some (ErrRollMismatch 0 3 5 1 1)).
Proof.
  split; [|split].
  - intros H. vm_compute in H. discriminate H.
  - vm_compute. reflexivity.
  - vm_compute. reflexivity.
Qed.

(** C3, amended.  For two player entries with different UIDs (or with the
    same client seed) [combinedSeed a b] equals [combinedSeed b a], and a
    report whose two players are such gets the same result from [Verify]
    when its two player entries are swapped. *)
Theorem C3_order_independence :
  (forall a b,
     UID a <> UID b \/ ClientSeed a = ClientSeed b ->
     combinedSeed a b = combinedSeed b a)
  /\ (forall fuel rep a b,
        Players rep = [a; b] ->
        UID a <> UID b \/ ClientSeed a = ClientSeed b ->
        Verify fuel (with_players rep [b; a]) = Verify fuel rep).
Proof.
  split; [apply combinedSeed_swap|].
  intros fuel rep a b Hp H. unfold Verify, with_players.
  cbn [Players Rolls ServerSeed ServerSeedHash]. rewrite Hp.
  cbn [length elem_at nth_error bind].
  rewrite (combinedSeed_swap a b H). reflexivity.
Qed.

Lemma C3_order_independence_witness :
  combinedSeed sample_a sample_b = combinedSeed sample_b sample_a
  /\ Verify 1 (with_players sample_report [sample_b; sample_a])
     = Verify 1 sample_report.
Proof.
  split.
  - apply (proj1 C3_order_independence). left. cbn. lia.
  - apply (proj2 C3_order_independence 1%nat sample_report sample_a sample_b).
    + reflexivity.
    + left. cbn. lia.
Defined.

(** ** The commitment *)

Lemma Verify_nil_inv fuel rep :
  Verify fuel rep = Ret None ->
  length (Players rep) = 2%nat
  /\ Nat.Even (String.length (Rolls rep))
  /\ exists srv, hex.DecodeString (ServerSeed rep) = Some srv
                 /\ sha256Hex srv = ServerSeedHash rep.
Proof.
  unfold Verify. intros H.
  destruct (length (Players rep) =? 2)%nat eqn:Hp; [|discriminate].
  apply Nat.eqb_eq in Hp. cbn [negb] in H.
  destruct (String.length (Rolls rep) mod 2 =? 0)%nat eqn:He; [|discriminate].
  apply Nat.eqb_eq, even_mod2 in He. cbn [negb] in H.
  unfold decodeHex in H.
  destruct (hex.DecodeString (ServerSeed rep)) as [srv|]; [|discriminate].
  destruct (sha256Hex srv =? ServerSeedHash rep)%string eqn:Hh;
    [|discriminate].
  apply String.eqb_eq in Hh. eauto.
Qed.

(** What [Verify] does past the structural checks depends on the server
    seed only through its decoding. *)
Lemma Verify_server_seed_decoding fuel rep s' :
  hex.DecodeString s' = hex.DecodeString (ServerSeed rep) ->
  Verify fuel (with_server_seed rep s') = Verify fuel rep.
Proof.
  intros H. unfold Verify, with_server_seed, decodeHex.
  cbn [Players Rolls ServerSeed ServerSeedHash]. rewrite H. reflexivity.
Qed.

Lemma EncodeToString_inj bs bs' :
  Forall is_byte bs -> Forall is_byte bs' ->
  hex.EncodeToString bs = hex.EncodeToString bs' -> bs = bs'.
Proof.
  intros Hb Hb' H.
  pose proof (decode_encode bs Hb) as E.
  rewrite H, (decode_encode bs' Hb') in E. congruence.
Qed.

(** C4 as stated fails.  Flipping bit 5 of the [a] at offset 20 of the
    server seed gives [A]: the seed decodes to the same bytes and the
    report still verifies.  Flipping bit 6 of the [0] at offset 0 gives
    [p]: the seed is no longer hex and the error is the encoding error,
    not the commitment mismatch. *)
Lemma C4_counterexample :
  Verify 1 lettered_report = Ret None
  /\ flip_bit_at 20 5 (ServerSeed lettered_report)
     = "00112233445566778899Aabbccddeeff"%string
  /\ Verify 1 (with_server_seed lettered_report
                 (flip_bit_at 20 5 (ServerSeed lettered_report)))
     = Ret None
  /\ flip_bit_at 0 6 (ServerSeed lettered_report)
     = "p0112233445566778899aabbccddeeff"%string
  /\ Verify 1 (with_server_seed lettered_report
                 (flip_bit_at 0 6 (ServerSeed lettered_report)))
     = Ret (Some (ErrNotHex "serverSeed")).
Proof.
  split; [vm_compute; reflexivity|].
  split; [vm_compute; reflexivity|].
  split; [vm_compute; reflexivity|].
  split; vm_compute; reflexivity.
Qed.

(** C4, amended.  Take a report that verifies and replace its server seed,
    leaving the commitment as it is.  If the new seed still decodes, and to
    bytes whose SHA-256 differs from that of the original seed, [Verify]
    fails with the commitment mismatch.  If it no longer decodes, as after
    a bit flip that leaves the hex alphabet, [Verify] fails with the
    encoding error of the server seed.  If it decodes to the same bytes,
    as after a bit flip that changes the case of a letter, the report
    still verifies. *)
Theorem C4_commitment_enforcement (fuel : nat) (rep : Report)
    (srv : list Z) (s' : string) :
  Verify fuel rep = Ret None ->
  hex.DecodeString (ServerSeed rep) = Some srv ->
  (forall srv',
     hex.DecodeString s' = Some srv' ->
     sha256.Sum256 srv' <> sha256.Sum256 srv ->
     Verify fuel (with_server_seed rep s') = Ret (Some ErrServerHash))
  /\ (hex.DecodeString s' = None ->
      Verify fuel (with_server_seed rep s') = Ret (Some (ErrNotHex "serverSeed")))
  /\ (hex.DecodeString s' = Some srv ->
      Verify fuel (with_server_seed rep s') = Ret None).
Proof.
  intros Hv Hd.
  destruct (Verify_nil_inv fuel rep Hv) as (Hp & He & srv0 & Hd0 & Hh).
  assert (srv0 = srv) by congruence. subst srv0.
  split; [|split].
  - intros srv' Hd' Hne.
    apply (Verify_commitment fuel (with_server_seed rep s') srv'); auto.
    cbn [with_server_seed ServerSeedHash]. rewrite <- Hh.
    unfold sha256Hex. intros E. apply Hne.
    apply EncodeToString_inj in E; auto using Sum256_bytes.
  - intros Hd'.
    apply (Verify_server_hex fuel (with_server_seed rep s')); auto.
  - intros Hd'. rewrite Verify_server_seed_decoding; [exact Hv|].
    congruence.
Qed.

(** Flipping the lowest bit of the first character of the sample server
    seed turns its first byte into 0x10: the commitment no longer holds. *)
Lemma C4_commitment_enforcement_witness :
  Verify 1 (with_server_seed sample_report
              (flip_bit_at 0 0 (ServerSeed sample_report)))
  = Ret (Some ErrServerHash).
Proof.
  refine (proj1 (C4_commitment_enforcement 1 sample_report sample_key
                   (flip_bit_at 0 0 (ServerSeed sample_report)) _ _)
                (16 :: repeat 0 15) _ _).
  - vm_compute. reflexivity.
  - vm_compute. reflexivity.
  - vm_compute. reflexivity.
  - intros H. vm_compute in H. discriminate H.
Defined.

(** * Further properties of the package *)

(** ** What a result of [Verify] tells *)

Lemma byte_of_ascii_range c : is_byte (byte_of_ascii c).
Proof.
  unfold is_byte, byte_of_ascii.
  pose proof (N_ascii_bounded c). lia.
Qed.

Lemma generate_faces fuel srv comb :
  forall k nonce gens,
    generate fuel srv comb nonce k = Ret gens ->
    length gens = k
    /\ Forall (fun d => 1 <= fst d <= 6 /\ 1 <= snd d <= 6) gens.
Proof.
  induction k as [|k IH]; intros nonce gens H.
  - injection H as <-. split; [reflexivity | constructor].
  - rewrite generate_S in H.
    destruct (rollDice fuel srv comb nonce) as [[[d1 d2] nonce']| |] eqn:Hd;
      cbn [bind] in H; try discriminate.
    destruct (generate fuel srv comb nonce' k) as [rest| |] eqn:Hr;
      cbn [bind] in H; try discriminate.
    injection H as <-. destruct (IH _ _ Hr) as [Hl Hf].
    split; [cbn [length]; congruence|].
    constructor; [|exact Hf]. exact (rollDice_faces _ _ _ _ _ _ _ Hd).
Qed.

(** The first [k'] rolls do not depend on how many are asked for. *)
Lemma generate_prefix fuel srv comb :
  forall k k' nonce gens,
    (k' <= k)%nat ->
    generate fuel srv comb nonce k = Ret gens ->
    generate fuel srv comb nonce k' = Ret (firstn k' gens).
Proof.
  induction k as [|k IH]; intros k' nonce gens Hle H.
  - assert (k' = 0%nat) by lia. subst. injection H as <-. reflexivity.
  - destruct k' as [|k']; [reflexivity|].
    rewrite generate_S in H |- *.
    destruct (rollDice fuel srv comb nonce) as [[[d1 d2] nonce']| |] eqn:Hd;
      cbn [bind] in H |- *; try discriminate.
    destruct (generate fuel srv comb nonce' k) as [rest| |] eqn:Hr;
      cbn [bind] in H; try discriminate.
    injection H as <-.
    rewrite (IH k' nonce' rest ltac:(lia) Hr). reflexivity.
Qed.

Lemma combinedSeed_ok_inv a b comb :
  combinedSeed a b = Ok comb ->
  exists ha hb, hex.DecodeString (ClientSeed a) = Some ha
                /\ hex.DecodeString (ClientSeed b) = Some hb.
Proof.
  intros H.
  destruct (hex.DecodeString (ClientSeed a)) as [ha|] eqn:Ha.
  - destruct (hex.DecodeString (ClientSeed b)) as [hb|] eqn:Hb; [eauto|].
    rewrite (combinedSeed_error a b (or_intror Hb)) in H. discriminate.
  - rewrite (combinedSeed_error a b (or_introl Ha)) in H. discriminate.
Qed.

(** Either an early check fails, with an error that is no roll mismatch,
    or [Verify] is its comparison loop. *)
Lemma Verify_inv fuel rep :
  (exists e, Verify fuel rep = Ret (Some e) /\ kind_of e <> RollMismatch)
  \/ (exists a b srv comb,
        Players rep = [a; b]
        /\ Nat.Even (String.length (Rolls rep))
        /\ hex.DecodeString (ServerSeed rep) = Some srv
        /\ sha256Hex srv = ServerSeedHash rep
        /\ combinedSeed a b = Ok comb
        /\ Verify fuel rep
           = compareRolls fuel srv comb (Rolls rep)
                          (String.length (Rolls rep) / 2) 0 0).
Proof.
  destruct (Nat.eq_dec (length (Players rep)) 2) as [Hp|Hp].
  2:{ left. eexists. split; [apply Verify_players; exact Hp | cbn; discriminate]. }
  destruct (Nat.Even_or_Odd (String.length (Rolls rep))) as [He|Ho].
  2:{ left. eexists. split; [apply Verify_parity; assumption | cbn; discriminate]. }
  destruct (hex.DecodeString (ServerSeed rep)) as [srv|] eqn:Hd.
  2:{ left. eexists.
      split; [apply Verify_server_hex; assumption | cbn; discriminate]. }
  destruct (string_dec (sha256Hex srv) (ServerSeedHash rep)) as [Hh|Hh].
  2:{ left. eexists.
      split; [apply (Verify_commitment fuel rep srv); assumption
             | cbn; discriminate]. }
  destruct (Players rep) as [|a [|b [|c l]]] eqn:Hpl; try discriminate.
  destruct (combinedSeed a b) as [comb|e] eqn:Hc.
  - right. exists a, b, srv, comb.
    rewrite (Verify_committed fuel rep a b srv Hpl He Hd Hh), Hc. auto 10.
  - left. exists e.
    rewrite (Verify_committed fuel rep a b srv Hpl He Hd Hh), Hc.
    split; [reflexivity|].
    unfold combinedSeed, decodeHex in Hc.
    destruct (String.ltb _ _), (String.ltb _ _),
      (hex.DecodeString (ClientSeed a)), (hex.DecodeString (ClientSeed b));
      try discriminate; injection Hc as <-; cbn; discriminate.
Qed.

(** X1.  No index ever goes out of range: whatever the report, and
    whatever the state of the generator, [drawDie], [rollDice] and
    [Verify] never panic. *)
Theorem X1_no_panic :
  (forall fuel key prefix g, drawDie fuel key prefix g <> Panic)
  /\ (forall fuel key prefix nonce, rollDice fuel key prefix nonce <> Panic)
  /\ (forall fuel rep, Verify fuel rep <> Panic).
Proof.
  split; [exact drawDie_no_panic|].
  split; [exact rollDice_no_panic | exact Verify_no_panic].
Qed.

Lemma get_in_range s i c :
  String.get i s = Some c -> (i < String.length s)%nat.
Proof.
  revert i. induction s as [|c' s IH]; intros i H; [discriminate|].
  destruct i as [|i]; cbn [String.get String.length] in *; [lia|].
  apply IH in H. lia.
Qed.

(** When [Verify] returns [nil] the report has two players, a roll
    string of even length whose every character is one of the digits
    ['1'] to ['6'], a server seed that decodes to bytes whose SHA-256 in
    lower-case hex is the recorded commitment, and two client seeds that
    decode. *)
Lemma Verify_nil_sound (fuel : nat) (rep : Report) :
  Verify fuel rep = Ret None ->
  (exists a b srv ha hb,
     Players rep = [a; b]
     /\ hex.DecodeString (ServerSeed rep) = Some srv
     /\ sha256Hex srv = ServerSeedHash rep
     /\ hex.DecodeString (ClientSeed a) = Some ha
     /\ hex.DecodeString (ClientSeed b) = Some hb)
  /\ Nat.Even (String.length (Rolls rep))
  /\ (forall i c, String.get i (Rolls rep) = Some c ->
        49 <= byte_of_ascii c <= 54).
Proof.
  intros Hv.
  destruct (Verify_inv fuel rep)
    as [(e & He & _) | (a & b & srv & comb & Hp & Hev & Hd & Hh & Hc & Hl)];
    [congruence|].
  destruct (combinedSeed_ok_inv a b comb Hc) as (ha & hb & Ha & Hb).
  split; [exists a, b, srv, ha, hb; auto|].
  split; [exact Hev|].
  rewrite Hl in Hv. apply compareRolls_ok in Hv.
  destruct Hv as (gens & Hg & Hall).
  destruct (generate_faces _ _ _ _ _ _ Hg) as [Hlen Hf].
  intros i c Hi.
  pose proof (get_in_range _ _ _ Hi) as Hlt.
  destruct Hev as [k Hk].
  assert (Hk2 : (String.length (Rolls rep) / 2 = k)%nat).
  { rewrite Hk, (Nat.mul_comm 2 k). apply Nat.div_mul. lia. }
  rewrite Hk2 in *.
  assert (Hj : (i / 2 < k)%nat).
  { apply Nat.Div0.div_lt_upper_bound. lia. }
  specialize (Hall (i / 2)%nat Hj). cbn [Nat.add] in Hall.
  destruct (nth_error gens (i / 2)) as [[d1 d2]|] eqn:Hn.
  2:{ apply nth_error_None in Hn. lia. }
  rewrite Forall_forall in Hf.
  specialize (Hf (d1, d2) (nth_error_In _ _ Hn)). cbn [fst snd] in Hf.
  cbn [option_map] in Hall. unfold digit_pair in Hall. cbn [fst snd] in Hall.
  apply reported_bytes in Hall. destruct Hall as [H1 H2].
  unfold byte_at in H1, H2.
  pose proof (Nat.Div0.div_mod i 2) as Hdm.
  pose proof (Nat.mod_upper_bound i 2 ltac:(lia)) as Hm.
  destruct (Nat.eq_dec (i mod 2) 0) as [E|E].
  - replace (2 * (i / 2))%nat with i in H1 by lia.
    rewrite Hi in H1. injection H1 as H1. lia.
  - replace (2 * (i / 2) + 1)%nat with i in H2 by lia.
    rewrite Hi in H2. injection H2 as H2. lia.
Qed.

(** X2.  When [Verify] returns [nil] the report has two players, a roll
    string of even length whose every character is one of the digits
    ['1'] to ['6'], a server seed that decodes to bytes whose SHA-256 in
    lower-case hex is the recorded commitment, and two client seeds that
    decode. *)
Theorem X2_success_is_sound (fuel : nat) (rep : Report) :
  Verify fuel rep = Ret None ->
  (exists a b srv ha hb,
     Players rep = [a; b]
     /\ hex.DecodeString (ServerSeed rep) = Some srv
     /\ sha256Hex srv = ServerSeedHash rep
     /\ hex.DecodeString (ClientSeed a) = Some ha
     /\ hex.DecodeString (ClientSeed b) = Some hb)
  /\ Nat.Even (String.length (Rolls rep))
  /\ (forall i c, String.get i (Rolls rep) = Some c ->
        49 <= byte_of_ascii c <= 54).
Proof. apply Verify_nil_sound. Qed.

Lemma X2_success_is_sound_witness :
  (exists a b srv ha hb,
     Players sample_report = [a; b]
     /\ hex.DecodeString (ServerSeed sample_report) = Some srv
     /\ sha256Hex srv = ServerSeedHash sample_report
     /\ hex.DecodeString (ClientSeed a) = Some ha
     /\ hex.DecodeString (ClientSeed b) = Some hb)
  /\ Nat.Even (String.length (Rolls sample_report))
  /\ (forall i c, String.get i (Rolls sample_report) = Some c ->
        49 <= byte_of_ascii c <= 54).
Proof.
  apply (X2_success_is_sound 1 sample_report).
  vm_compute. reflexivity.
Defined.

(** A mismatch that the loop reports is a real one, at a pair it
    reached. *)
Lemma compareRolls_error_inv fuel srv comb rolls :
  forall n i0 nonce i d1 d2 a1 a2,
    compareRolls fuel srv comb rolls n i0 nonce
    = Ret (Some (ErrRollMismatch i d1 d2 a1 a2)) ->
    exists j r1 r2,
      (j < n)%nat /\ i = (i0 + 2 * j)%nat
      /\ reported rolls i = Some (r1, r2)
      /\ a1 = u8 (r1 - 48) /\ a2 = u8 (r2 - 48)
      /\ 1 <= d1 <= 6 /\ 1 <= d2 <= 6
      /\ (r1, r2) <> digit_pair (d1, d2)
      /\ forall j', (j' < j)%nat ->
           exists e1 e2, 1 <= e1 <= 6 /\ 1 <= e2 <= 6
             /\ reported rolls (i0 + 2 * j') = Some (digit_pair (e1, e2)).
Proof.
  induction n as [|n IH]; intros i0 nonce i d1 d2 a1 a2 H; [discriminate|].
  rewrite compareRolls_S in H.
  destruct (byte_at rolls i0) as [r1| |] eqn:H1; cbn [bind] in H;
    try discriminate.
  destruct (byte_at rolls (i0 + 1)) as [r2| |] eqn:H2; cbn [bind] in H;
    try discriminate.
  assert (Hr : reported rolls i0 = Some (r1, r2))
    by (apply reported_bytes; auto).
  destruct (rollDice fuel srv comb nonce) as [[[e1 e2] nonce']| |] eqn:Hd;
    cbn [bind] in H; try discriminate.
  destruct (rollDice_faces _ _ _ _ _ _ _ Hd) as [He1 He2].
  pose proof (mismatch_test e1 e2 r1 r2 He1 He2) as Ht.
  destruct (negb (u8 (u8 e1 + 48) =? r1) || negb (u8 (u8 e2 + 48) =? r2)).
  - injection H as <- <- <- <- <-.
    exists 0%nat, r1, r2. rewrite Nat.mul_0_r, Nat.add_0_r.
    split; [lia|]. split; [reflexivity|]. split; [exact Hr|].
    do 4 (split; [auto|]).
    split.
    + intros E. apply Ht in E. discriminate.
    + intros j' Hj'. inversion Hj'.
  - destruct (IH _ _ _ _ _ _ _ H)
      as (j & s1 & s2 & Hj & Hi & Hrep & Ha1 & Ha2 & Hd1 & Hd2 & Hne & Hbef).
    exists (S j), s1, s2.
    split; [lia|]. split; [lia|]. split; [exact Hrep|].
    do 4 (split; [auto|]). split; [exact Hne|].
    intros [|j'] Hj'.
    + exists e1, e2. rewrite Nat.mul_0_r, Nat.add_0_r, Hr.
      split; [auto|]. split; [auto|]. f_equal. apply Ht. reflexivity.
    + destruct (Hbef j' ltac:(lia)) as (f1 & f2 & Hf1 & Hf2 & Hf).
      exists f1, f2. split; [auto|]. split; [auto|].
      rewrite <- Hf. f_equal. lia.
Qed.

(** X3.  A roll-mismatch error of [Verify] is a real mismatch: its offset
    is even and inside the roll string, the expected dice are faces 1..6,
    the values under "got" are the two reported bytes less ['0'], and they
    differ from the expected pair; every pair before the offset shows two
    digits in ['1'..'6']. *)
Theorem X3_mismatch_is_sound (fuel : nat) (rep : Report)
    (i : nat) (d1 d2 a1 a2 : Z) :
  Verify fuel rep = Ret (Some (ErrRollMismatch i d1 d2 a1 a2)) ->
  Nat.Even i
  /\ (i + 1 < String.length (Rolls rep))%nat
  /\ 1 <= d1 <= 6 /\ 1 <= d2 <= 6
  /\ (exists r1 r2,
        reported (Rolls rep) i = Some (r1, r2)
        /\ a1 = u8 (r1 - 48) /\ a2 = u8 (r2 - 48))
  /\ (a1, a2) <> (d1, d2)
  /\ (forall q c, (q < i)%nat -> String.get q (Rolls rep) = Some c ->
        49 <= byte_of_ascii c <= 54).
Proof.
  intros Hv.
  destruct (Verify_inv fuel rep)
    as [(e & He & Hk) | (a & b & srv & comb & Hp & Hev & Hd & Hh & Hc & Hl)].
  { rewrite Hv in He. injection He as <-. exfalso. apply Hk. reflexivity. }
  rewrite Hl in Hv.
  destruct (compareRolls_error_inv _ _ _ _ _ _ _ _ _ _ _ _ Hv)
    as (j & r1 & r2 & Hj & Hi & Hrep & Ha1 & Ha2 & Hd1 & Hd2 & Hne & Hbef).
  cbn [Nat.add] in Hi, Hbef.
  assert (Hb : is_byte r1 /\ is_byte r2).
  { unfold reported in Hrep.
    destruct (String.get i (Rolls rep)), (String.get (i + 1) (Rolls rep));
      try discriminate.
    injection Hrep as <- <-. split; apply byte_of_ascii_range. }
  destruct Hb as [Hb1 Hb2]. unfold is_byte in Hb1, Hb2.
  split; [exists j; exact Hi|].
  split.
  { unfold reported in Hrep.
    destruct (String.get i (Rolls rep)); [|discriminate].
    destruct (String.get (i + 1) (Rolls rep)) eqn:G; [|discriminate].
    apply get_in_range in G. exact G. }
  split; [exact Hd1|]. split; [exact Hd2|].
  split; [exists r1, r2; auto|].
  split.
  - intros E. injection E as E1 E2. apply Hne.
    unfold digit_pair. cbn [fst snd].
    subst a1 a2. unfold u8 in E1, E2.
    pose proof (Z.div_mod (r1 - 48) 256 ltac:(lia)) as M1.
    pose proof (Z.div_mod (r2 - 48) 256 ltac:(lia)) as M2.
    f_equal; lia.
  - intros q c Hq Hget.
    assert (Hj' : (q / 2 < j)%nat).
    { apply Nat.Div0.div_lt_upper_bound. lia. }
    destruct (Hbef (q / 2)%nat Hj') as (e1 & e2 & He1 & He2 & Hrq).
    unfold digit_pair in Hrq. cbn [fst snd] in Hrq.
    apply reported_bytes in Hrq. destruct Hrq as [H1 H2].
    unfold byte_at in H1, H2.
    pose proof (Nat.Div0.div_mod q 2) as Hdm.
    pose proof (Nat.mod_upper_bound q 2 ltac:(lia)) as Hm.
    destruct (Nat.eq_dec (q mod 2) 0) as [E|E].
    + replace (2 * (q / 2))%nat with q in H1 by lia.
      rewrite Hget in H1. injection H1 as H1. lia.
    + replace (2 * (q / 2) + 1)%nat with q in H2 by lia.
      rewrite Hget in H2. injection H2 as H2. lia.
Qed.

Lemma X3_mismatch_is_sound_witness :
  Nat.Even 2
  /\ (2 + 1 < String.length (Rolls (with_rolls sample_report "6114")))%nat
  /\ 1 <= 1 <= 6 /\ 1 <= 3 <= 6
  /\ (exists r1 r2,
        reported (Rolls (with_rolls sample_report "6114")) 2 = Some (r1, r2)
        /\ 1 = u8 (r1 - 48) /\ 4 = u8 (r2 - 48))
  /\ (1, 4) <> (1, 3)
  /\ (forall q c, (q < 2)%nat ->
        String.get q (Rolls (with_rolls sample_report "6114")) = Some c ->
        49 <= byte_of_ascii c <= 54).
Proof.
  apply (X3_mismatch_is_sound 1 (with_rolls sample_report "6114") 2 1 3 1 4).
  vm_compute. reflexivity.
Defined.

(** ** Changed and shortened roll strings *)

Lemma byte_of_ascii_inj c c' : byte_of_ascii c = byte_of_ascii c' -> c = c'.
Proof.
  unfold byte_of_ascii. intros H. apply N2Z.inj in H.
  rewrite <- (ascii_N_embedding c), <- (ascii_N_embedding c'), H.
  reflexivity.
Qed.

Lemma reported_in_range s off :
  (off + 1 < String.length s)%nat -> exists r1 r2, reported s off = Some (r1, r2).
Proof.
  intros H.
  destruct (byte_at_in_range s off ltac:(lia)) as [r1 H1].
  destruct (byte_at_in_range s (off + 1) ltac:(lia)) as [r2 H2].
  exists r1, r2. apply reported_bytes. auto.
Qed.

(** Two strings show the same pair at an offset exactly when they hold
    the same two characters there. *)
Lemma reported_eq s s' off :
  (off + 1 < String.length s)%nat ->
  (reported s' off = reported s off <->
   String.get off s' = String.get off s
   /\ String.get (off + 1) s' = String.get (off + 1) s).
Proof.
  intros Hlen.
  destruct (reported_in_range s off Hlen) as (r1 & r2 & Hr).
  split.
  - intros H. rewrite Hr in H. unfold reported in H, Hr.
    destruct (String.get off s) as [c1|]; [|discriminate].
    destruct (String.get (off + 1) s) as [c2|]; [|discriminate].
    destruct (String.get off s') as [c1'|]; [|discriminate].
    destruct (String.get (off + 1) s') as [c2'|]; [|discriminate].
    injection H as H1 H2. injection Hr as <- <-.
    apply byte_of_ascii_inj in H1, H2. subst. auto.
  - intros [H1 H2]. unfold reported. rewrite H1, H2. reflexivity.
Qed.

(** The least index below [k] with a decidable property, if there is
    one. *)
Lemma least_below (P : nat -> Prop) (dec : forall j, {P j} + {~ P j}) :
  forall k,
    (forall j, (j < k)%nat -> ~ P j)
    \/ (exists j, (j < k)%nat /\ P j /\ forall j', (j' < j)%nat -> ~ P j').
Proof.
  induction k as [|k [IH | (j & Hj & HP & Hmin)]].
  - left. intros j Hj. inversion Hj.
  - destruct (dec k) as [Hk|Hk].
    + right. exists k. split; [lia|]. split; [exact Hk|].
      intros j' Hj'. apply IH. exact Hj'.
    + left. intros j Hj.
      destruct (Nat.eq_dec j k) as [->|Hne]; [exact Hk | apply IH; lia].
  - right. exists j. split; [lia|]. auto.
Qed.

Lemma even_half n : Nat.Even n -> (2 * (n / 2) = n)%nat.
Proof.
  intros [k ->]. rewrite (Nat.mul_comm 2 k), Nat.div_mul by lia. lia.
Qed.

(** X4.  Changing characters of the roll string of a report that verifies,
    its length kept, is always detected: [Verify] fails with a roll
    mismatch whose offset is that of the first pair holding a changed
    character, and whose expected dice are the ones the original report
    showed there. *)
Theorem X4_changed_rolls_detected (fuel : nat) (rep : Report)
    (rolls' : string) :
  Verify fuel rep = Ret None ->
  String.length rolls' = String.length (Rolls rep) ->
  rolls' <> Rolls rep ->
  exists i d1 d2 a1 a2,
    Verify fuel (with_rolls rep rolls')
    = Ret (Some (ErrRollMismatch i d1 d2 a1 a2))
    /\ Nat.Even i
    /\ (forall q, (q < i)%nat ->
          String.get q rolls' = String.get q (Rolls rep))
    /\ (String.get i rolls' <> String.get i (Rolls rep)
        \/ String.get (i + 1) rolls' <> String.get (i + 1) (Rolls rep))
    /\ reported (Rolls rep) i = Some (digit_pair (d1, d2)).
Proof.
  intros Hv Hlen Hne.
  destruct (Verify_inv fuel rep)
    as [(e & He & _) | (a & b & srv & comb & Hp & Hev & Hd & Hh & Hc & Hl)];
    [congruence|].
  rewrite Hl in Hv. apply compareRolls_ok in Hv.
  destruct Hv as (gens & Hg & Hall). cbn [Nat.add] in Hall.
  destruct (generate_faces _ _ _ _ _ _ Hg) as [Hgl _].
  set (k := (String.length (Rolls rep) / 2)%nat) in *.
  pose proof (even_half _ Hev) as Hk. fold k in Hk.
  assert (Hv' : Verify fuel (with_rolls rep rolls')
                = compareRolls fuel srv comb rolls' k 0 0).
  { rewrite (Verify_committed fuel (with_rolls rep rolls') a b srv); auto.
    - rewrite Hc. cbn [with_rolls Rolls]. rewrite Hlen. reflexivity.
    - cbn [with_rolls Rolls]. rewrite Hlen. exact Hev. }
  set (P := fun j =>
    String.get (2 * j) rolls' <> String.get (2 * j) (Rolls rep)
    \/ String.get (2 * j + 1) rolls' <> String.get (2 * j + 1) (Rolls rep)).
  assert (dec : forall j, {P j} + {~ P j}).
  { intros j. unfold P.
    assert (D : forall x y : option ascii, {x = y} + {x <> y})
      by (decide equality; apply ascii_dec).
    destruct (D (String.get (2 * j) rolls')
                (String.get (2 * j) (Rolls rep)));
      destruct (D (String.get (2 * j + 1) rolls')
                  (String.get (2 * j + 1) (Rolls rep)));
      [right; intros [?|?]; contradiction | left; auto ..]. }
  destruct (least_below P dec k) as [Hnone | (j & Hj & HP & Hmin)].
  { exfalso. apply Hne. apply String.get_correct. intros q.
    destruct (Nat.lt_ge_cases q (String.length (Rolls rep))) as [Hq|Hq].
    - assert (Hq2 : (q / 2 < k)%nat)
        by (apply Nat.Div0.div_lt_upper_bound; lia).
      specialize (Hnone _ Hq2). unfold P in Hnone.
      pose proof (Nat.Div0.div_mod q 2) as Hdm.
      pose proof (Nat.mod_upper_bound q 2 ltac:(lia)) as Hm.
      assert (D : forall x y : option ascii, x = y \/ x <> y).
      { intros x y.
        assert (D : {x = y} + {x <> y})
          by (decide equality; apply ascii_dec).
        destruct D; auto. }
      destruct (D (String.get q rolls') (String.get q (Rolls rep)))
        as [E|E]; [exact E|].
      exfalso. apply Hnone.
      destruct (Nat.eq_dec (q mod 2) 0).
      + left. replace (2 * (q / 2))%nat with q by lia. exact E.
      + right. replace (2 * (q / 2) + 1)%nat with q by lia. exact E.
    - assert (G : forall s, (String.length s <= q)%nat ->
                            String.get q s = None).
      { intros s Hs. destruct (String.get q s) eqn:G; [|reflexivity].
        apply get_in_range in G. lia. }
      rewrite !G by lia. reflexivity. }
  destruct (nth_error gens j) as [[d1 d2]|] eqn:Hn.
  2:{ apply nth_error_None in Hn. lia. }
  pose proof (Hall j Hj) as Hrj. rewrite Hn in Hrj. cbn [option_map] in Hrj.
  destruct (reported_in_range rolls' (2 * j) ltac:(lia)) as (r1 & r2 & Hr').
  assert (Hdiff : (r1, r2) <> digit_pair (d1, d2)).
  { intros E.
    assert (Heq : reported rolls' (2 * j) = reported (Rolls rep) (2 * j))
      by (rewrite Hr', Hrj, E; reflexivity).
    apply reported_eq in Heq; [|lia].
    destruct Heq as [E1 E2]. destruct HP as [HP|HP]; contradiction. }
  exists (2 * j)%nat, d1, d2, (u8 (r1 - 48)), (u8 (r2 - 48)).
  split.
  { rewrite Hv'.
    apply (compareRolls_mismatch fuel srv comb rolls' j k 0%nat 0
             (firstn (S j) gens)); auto.
    - apply (generate_prefix fuel srv comb k); [lia | exact Hg].
    - intros j' Hj'. cbn [Nat.add].
      rewrite nth_error_firstn.
      replace (j' <? S j)%nat with true by (symmetry; apply Nat.ltb_lt; lia).
      rewrite <- Hall by lia.
      apply reported_eq; [lia|].
      specialize (Hmin j' Hj'). unfold P in Hmin.
      assert (D : forall x y : option ascii, x = y \/ x <> y).
      { intros x y.
        assert (D : {x = y} + {x <> y})
          by (decide equality; apply ascii_dec).
        destruct D; auto. }
      destruct (D (String.get (2 * j') rolls')
                  (String.get (2 * j') (Rolls rep)));
        destruct (D (String.get (2 * j' + 1) rolls')
                    (String.get (2 * j' + 1) (Rolls rep)));
        tauto.
    - rewrite nth_error_firstn.
      replace (j <? S j)%nat with true by (symmetry; apply Nat.ltb_lt; lia).
      exact Hn. }
  split; [exists j; reflexivity|].
  split.
  { intros q Hq.
    assert (Hq2 : (q / 2 < j)%nat)
      by (apply Nat.Div0.div_lt_upper_bound; lia).
    specialize (Hmin _ Hq2). unfold P in Hmin.
    pose proof (Nat.Div0.div_mod q 2) as Hdm.
    pose proof (Nat.mod_upper_bound q 2 ltac:(lia)) as Hm.
    assert (D : {String.get q rolls' = String.get q (Rolls rep)}
                + {String.get q rolls' <> String.get q (Rolls rep)})
      by (decide equality; apply ascii_dec).
    destruct D as [E|E]; [exact E|].
    exfalso. apply Hmin.
    destruct (Nat.eq_dec (q mod 2) 0).
    + left. replace (2 * (q / 2))%nat with q by lia. exact E.
    + right. replace (2 * (q / 2) + 1)%nat with q by lia. exact E. }
  split; [exact HP | exact Hrj].
Qed.

Lemma X4_changed_rolls_detected_witness :
  exists i d1 d2 a1 a2,
    Verify 1 (with_rolls sample_report "6114")
    = Ret (Some (ErrRollMismatch i d1 d2 a1 a2))
    /\ Nat.Even i
    /\ (forall q, (q < i)%nat ->
          String.get q "6114" = String.get q (Rolls sample_report))
    /\ (String.get i "6114" <> String.get i (Rolls sample_report)
        \/ String.get (i + 1) "6114"
           <> String.get (i + 1) (Rolls sample_report))
    /\ reported (Rolls sample_report) i = Some (digit_pair (d1, d2)).
Proof.
  apply (X4_changed_rolls_detected 1 sample_report "6114").
  - vm_compute. reflexivity.
  - reflexivity.
  - discriminate.
Defined.

Lemma prefix_get s1 : forall s2 i c,
  String.prefix s1 s2 = true ->
  String.get i s1 = Some c -> String.get i s2 = Some c.
Proof.
  induction s1 as [|a s1 IH]; intros s2 i c Hp Hg; [discriminate|].
  destruct s2 as [|b s2]; [discriminate|].
  cbn [String.prefix] in Hp.
  destruct (ascii_dec a b) as [->|]; [|discriminate].
  destruct i as [|i]; cbn [String.get] in *; [exact Hg|].
  apply (IH s2 i c Hp Hg).
Qed.

Lemma prefix_length s1 : forall s2,
  String.prefix s1 s2 = true -> (String.length s1 <= String.length s2)%nat.
Proof.
  induction s1 as [|a s1 IH]; intros s2 Hp; [cbn; lia|].
  destruct s2 as [|b s2]; [discriminate|].
  cbn [String.prefix] in Hp.
  destruct (ascii_dec a b); [|discriminate].
  cbn [String.length]. specialize (IH s2 Hp). lia.
Qed.

Lemma prefix_reported s1 s2 off :
  String.prefix s1 s2 = true ->
  (off + 1 < String.length s1)%nat ->
  reported s1 off = reported s2 off.
Proof.
  intros Hp Hlen. unfold reported.
  destruct (byte_at_in_range s1 off ltac:(lia)) as [r1 H1].
  destruct (byte_at_in_range s1 (off + 1) ltac:(lia)) as [r2 H2].
  unfold byte_at in H1, H2.
  destruct (String.get off s1) as [c1|] eqn:G1; [|discriminate].
  destruct (String.get (off + 1) s1) as [c2|] eqn:G2; [|discriminate].
  rewrite (prefix_get _ _ _ _ Hp G1), (prefix_get _ _ _ _ Hp G2).
  reflexivity.
Qed.

(** X5.  [Verify] does not notice missing rolls: when a report verifies,
    so does the report with its roll string cut down to any prefix of
    even length, the empty one included. *)
Theorem X5_truncated_rolls_verify (fuel : nat) (rep : Report)
    (rolls' : string) :
  Verify fuel rep = Ret None ->
  String.prefix rolls' (Rolls rep) = true ->
  Nat.Even (String.length rolls') ->
  Verify fuel (with_rolls rep rolls') = Ret None.
Proof.
  intros Hv Hpre Hev'.
  destruct (Verify_inv fuel rep)
    as [(e & He & _) | (a & b & srv & comb & Hp & Hev & Hd & Hh & Hc & Hl)];
    [congruence|].
  rewrite Hl in Hv. apply compareRolls_ok in Hv.
  destruct Hv as (gens & Hg & Hall). cbn [Nat.add] in Hall.
  pose proof (prefix_length _ _ Hpre) as Hle.
  pose proof (even_half _ Hev) as Hk.
  pose proof (even_half _ Hev') as Hk'.
  rewrite (Verify_committed fuel (with_rolls rep rolls') a b srv); auto.
  rewrite Hc. cbn [with_rolls Rolls].
  apply compareRolls_ok.
  exists (firstn (String.length rolls' / 2) gens). split.
  - apply (generate_prefix fuel srv comb (String.length (Rolls rep) / 2));
      [|exact Hg].
    apply Nat.Div0.div_le_mono. exact Hle.
  - intros j Hj. cbn [Nat.add].
    rewrite nth_error_firstn.
    replace (j <? String.length rolls' / 2)%nat with true
      by (symmetry; apply Nat.ltb_lt; exact Hj).
    rewrite <- Hall by lia.
    apply prefix_reported; [exact Hpre | lia].
Qed.

Lemma X5_truncated_rolls_verify_witness :
  Verify 1 (with_rolls sample_report "61") = Ret None.
Proof.
  apply (X5_truncated_rolls_verify 1 sample_report "61").
  - vm_compute. reflexivity.
  - reflexivity.
  - exists 1%nat. reflexivity.
Defined.

(** X6.  A report without rolls generates no dice: its result is the same
    for every fuel, and it verifies exactly when it has two players, a
    server seed that decodes and matches the commitment, and two client
    seeds that decode. *)
Theorem X6_no_rolls (fuel : nat) (rep : Report) :
  Rolls rep = EmptyString ->
  Verify fuel rep = Verify 0 rep
  /\ (Verify fuel rep = Ret None <->
      exists a b srv ha hb,
        Players rep = [a; b]
        /\ hex.DecodeString (ServerSeed rep) = Some srv
        /\ sha256Hex srv = ServerSeedHash rep
        /\ hex.DecodeString (ClientSeed a) = Some ha
        /\ hex.DecodeString (ClientSeed b) = Some hb).
Proof.
  intros Hr. split.
  - unfold Verify. rewrite Hr. reflexivity.
  - split.
    + intros Hv. apply (Verify_nil_sound fuel rep Hv).
    + intros (a & b & srv & ha & hb & Hp & Hd & Hh & Ha & Hb).
      assert (He : Nat.Even (String.length (Rolls rep)))
        by (rewrite Hr; exists 0%nat; reflexivity).
      rewrite (Verify_committed fuel rep a b srv Hp He Hd Hh).
      destruct (combinedSeed_ok a b ha hb Ha Hb) as (comb & -> & _).
      rewrite Hr. reflexivity.
Qed.

Lemma X6_no_rolls_witness :
  Verify 1 (with_rolls sample_report "") = Verify 0 (with_rolls sample_report "")
  /\ (Verify 1 (with_rolls sample_report "") = Ret None <->
      exists a b srv ha hb,
        Players (with_rolls sample_report "") = [a; b]
        /\ hex.DecodeString (ServerSeed (with_rolls sample_report "")) = Some srv
        /\ sha256Hex srv = ServerSeedHash (with_rolls sample_report "")
        /\ hex.DecodeString (ClientSeed a) = Some ha
        /\ hex.DecodeString (ClientSeed b) = Some hb).
Proof.
  apply (X6_no_rolls 1 (with_rolls sample_report "")). reflexivity.
Defined.

(** ** The commitment string *)

Lemma EncodeToString_length bs :
  String.length (hex.EncodeToString bs) = (2 * length bs)%nat.
Proof.
  induction bs as [|v bs IH]; [reflexivity|].
  cbn [hex.EncodeToString String.length length]. rewrite IH. lia.
Qed.

Lemma digits_lower v :
  is_byte v ->
  is_lower_hex (hex.digit (Z.shiftr v 4)) = true
  /\ is_lower_hex (hex.digit (Z.land v 15)) = true.
Proof.
  intros Hv.
  assert (Hall : forallb (fun v =>
             is_lower_hex (hex.digit (Z.shiftr v 4))
             && is_lower_hex (hex.digit (Z.land v 15))) byte_values = true)
    by (vm_compute; reflexivity).
  rewrite forallb_forall in Hall.
  assert (Hin : In v byte_values).
  { unfold byte_values. apply in_map_iff. exists (Z.to_nat v).
    unfold is_byte in Hv. split; [lia|]. apply in_seq. lia. }
  specialize (Hall v Hin). apply andb_true_iff in Hall. exact Hall.
Qed.

Lemma EncodeToString_lower bs :
  Forall is_byte bs ->
  forall c, In c (list_ascii_of_string (hex.EncodeToString bs)) ->
            is_lower_hex c = true.
Proof.
  induction 1 as [|v bs Hv Hbs IH]; intros c Hc; [destruct Hc|].
  cbn [hex.EncodeToString list_ascii_of_string] in Hc.
  destruct (digits_lower v Hv) as [H1 H2].
  destruct Hc as [<-|[<-|Hc]]; auto.
Qed.

Lemma sha256Hex_format b :
  String.length (sha256Hex b) = 64%nat
  /\ forall c, In c (list_ascii_of_string (sha256Hex b)) ->
               is_lower_hex c = true.
Proof.
  unfold sha256Hex. split.
  - rewrite EncodeToString_length, Sum256_length. reflexivity.
  - apply EncodeToString_lower, Sum256_bytes.
Qed.

(** X7.  [sha256Hex] always yields 64 lower-case hex digits, and the
    commitment is compared with it as a string.  So a report whose
    [server_seed_hash] has another length, or holds an upper-case digit or
    any other character, never verifies, although the seeds themselves may
    be written in either case. *)
Theorem X7_commitment_is_lower_hex :
  (forall b,
     String.length (sha256Hex b) = 64%nat
     /\ forall c, In c (list_ascii_of_string (sha256Hex b)) ->
                  is_lower_hex c = true)
  /\ (forall fuel rep,
        Verify fuel rep = Ret None ->
        String.length (ServerSeedHash rep) = 64%nat
        /\ forall c, In c (list_ascii_of_string (ServerSeedHash rep)) ->
                     is_lower_hex c = true).
Proof.
  split; [exact sha256Hex_format|].
  intros fuel rep Hv.
  destruct (Verify_nil_inv fuel rep Hv) as (_ & _ & srv & _ & <-).
  apply sha256Hex_format.
Qed.

Lemma X7_commitment_is_lower_hex_witness :
  String.length (ServerSeedHash sample_report) = 64%nat
  /\ forall c, In c (list_ascii_of_string (ServerSeedHash sample_report)) ->
               is_lower_hex c = true.
Proof.
  apply (proj2 X7_commitment_is_lower_hex 1%nat sample_report).
  vm_compute. reflexivity.
Defined.

(** The sample report with its commitment in upper case. *)
Example upper_case_commitment :
  Verify 1 (mkReport "sample" "00000000000000000000000000000000"
      "374708FFF7719DD5979EC875D56CD2286F6D3CF7EC317A3B25632AAB28EC37BB"
      "6113" [sample_a; sample_b])
  = Ret (Some ErrServerHash).
Proof. vm_compute. reflexivity. Qed.

(** ** What [Verify] reads of a report *)

Lemma fromHexChar_case c :
  hex.fromHexChar (to_upper c) = hex.fromHexChar c
  /\ hex.fromHexChar (to_lower c) = hex.fromHexChar c.
Proof.
  destruct c as [[] [] [] [] [] [] [] []]; vm_compute; split; reflexivity.
Qed.

Lemma DecodeString_map f :
  (forall c, hex.fromHexChar (f c) = hex.fromHexChar c) ->
  forall s, hex.DecodeString (string_map f s) = hex.DecodeString s.
Proof.
  intros Hf s. induction s as [|c|c1 c2 s IH] using string_pair_ind.
  - reflexivity.
  - reflexivity.
  - cbn [string_map hex.DecodeString]. rewrite !Hf, IH. reflexivity.
Qed.

Lemma combinedSeed_decoding a a' b b' :
  same_seed_bytes a a' -> same_seed_bytes b b' ->
  combinedSeed a b = combinedSeed a' b'.
Proof.
  intros [Hu Hs] [Hu' Hs']. unfold combinedSeed, decodeHex.
  rewrite Hu, Hu'.
  destruct (String.ltb (strconv.FormatInt (UID b'))
                       (strconv.FormatInt (UID a')));
    rewrite Hs, Hs'; reflexivity.
Qed.

(** X8.  [Verify] reads a report only through its player count, its roll
    string, its commitment string, the bytes its server seed decodes to
    and, of each player, the UID and the bytes the client seed decodes
    to: two reports that agree on these get the same result, whatever
    their [game_id], their [source] tags and the case of the hex digits
    of their seeds. *)
Theorem X8_only_decoded_seeds_matter :
  (forall fuel r r',
     hex.DecodeString (ServerSeed r) = hex.DecodeString (ServerSeed r') ->
     ServerSeedHash r = ServerSeedHash r' ->
     Rolls r = Rolls r' ->
     Forall2 same_seed_bytes (Players r) (Players r') ->
     Verify fuel r = Verify fuel r')
  /\ (forall s,
        hex.DecodeString (string_map to_upper s) = hex.DecodeString s
        /\ hex.DecodeString (string_map to_lower s) = hex.DecodeString s).
Proof.
  split.
  - intros fuel r r' Hs Hh Hr Hp. unfold Verify, decodeHex.
    rewrite <- Hs, <- Hh, <- Hr, <- (Forall2_length Hp).
    destruct (negb (length (Players r) =? 2)%nat); [reflexivity|].
    destruct (negb (String.length (Rolls r) mod 2 =? 0)%nat); [reflexivity|].
    destruct (hex.DecodeString (ServerSeed r)) as [srv|]; [|reflexivity].
    destruct (negb (sha256Hex srv =? ServerSeedHash r)%string);
      [reflexivity|].
    destruct Hp as [|a a' l l' Ha Hl]; [reflexivity|].
    destruct Hl as [|b b' l l' Hb Hl]; [reflexivity|].
    cbn [elem_at nth_error bind].
    rewrite (combinedSeed_decoding a a' b b' Ha Hb). reflexivity.
  - intros s. split; apply DecodeString_map; intros c;
      apply fromHexChar_case.
Qed.

(** The lettered report written in upper case, under another game id and
    with other provenance tags, verifies as the original does. *)
Lemma X8_only_decoded_seeds_matter_witness :
  Verify 1 lettered_report
  = Verify 1 (mkReport "other"
                (string_map to_upper (ServerSeed lettered_report))
                (ServerSeedHash lettered_report)
                (Rolls lettered_report)
                [mkPlayerEntry 1001
                   (string_map to_upper (ClientSeed sample_a)) "fallback";
                 mkPlayerEntry 1002
                   (string_map to_upper (ClientSeed sample_b)) "player"]).
Proof.
  apply (proj1 X8_only_decoded_seeds_matter).
  - vm_compute. reflexivity.
  - reflexivity.
  - reflexivity.
  - repeat constructor; vm_compute; reflexivity.
Defined.

(** ** Hex fields, decoded and encoded again *)

Lemma fromHexChar_digit c a :
  hex.fromHexChar c = Some a ->
  0 <= a < 16 /\ hex.digit a = to_lower c.
Proof.
  destruct c as [[] [] [] [] [] [] [] []]; vm_compute;
    try discriminate; intros [= <-];
    (split; [split; [discriminate | reflexivity] | reflexivity]).
Qed.

Lemma nibbles a b :
  0 <= a < 16 -> 0 <= b < 16 ->
  is_byte (Z.lor (Z.shiftl a 4) b)
  /\ Z.shiftr (Z.lor (Z.shiftl a 4) b) 4 = a
  /\ Z.land (Z.lor (Z.shiftl a 4) b) 15 = b.
Proof.
  intros Ha Hb.
  assert (Hall : forallb (fun a => forallb (fun b =>
            let v := Z.lor (Z.shiftl a 4) b in
            (0 <=? v) && (v <? 256) && (Z.shiftr v 4 =? a)
            && (Z.land v 15 =? b))
            (map Z.of_nat (seq 0 16))) (map Z.of_nat (seq 0 16)) = true)
    by (vm_compute; reflexivity).
  rewrite forallb_forall in Hall.
  assert (Hin : forall x, 0 <= x < 16 -> In x (map Z.of_nat (seq 0 16))).
  { intros x Hx. apply in_map_iff. exists (Z.to_nat x).
    split; [lia|]. apply in_seq. lia. }
  specialize (Hall a (Hin a Ha)). rewrite forallb_forall in Hall.
  specialize (Hall b (Hin b Hb)). cbv zeta in Hall.
  rewrite !andb_true_iff in Hall.
  destruct Hall as [[[H1 H2] H3] H4].
  unfold is_byte. rewrite Z.leb_le in H1. rewrite Z.ltb_lt in H2.
  rewrite Z.eqb_eq in H3, H4. auto.
Qed.

Lemma DecodeString_pair c1 c2 s :
  hex.DecodeString (String c1 (String c2 s)) =
  match hex.fromHexChar c1, hex.fromHexChar c2 with
  | Some a, Some b =>
      match hex.DecodeString s with
      | Some bs => Some (Z.lor (Z.shiftl a 4) b :: bs)
      | None => None
      end
  | _, _ => None
  end.
Proof. reflexivity. Qed.

Lemma EncodeToString_cons v bs :
  hex.EncodeToString (v :: bs) =
  String (hex.digit (Z.shiftr v 4))
         (String (hex.digit (Z.land v 15)) (hex.EncodeToString bs)).
Proof. reflexivity. Qed.

Lemma decode_then_encode s :
  forall bs,
    hex.DecodeString s = Some bs ->
    Forall is_byte bs
    /\ hex.EncodeToString bs = string_map to_lower s.
Proof.
  induction s as [|c|c1 c2 s IH] using string_pair_ind; intros bs.
  - intros [= <-]. split; [constructor | reflexivity].
  - discriminate.
  - rewrite DecodeString_pair.
    destruct (hex.fromHexChar c1) as [a|] eqn:H1; [|discriminate].
    destruct (hex.fromHexChar c2) as [b|] eqn:H2; [|discriminate].
    destruct (hex.DecodeString s) as [bs'|]; [|discriminate].
    intros [= <-].
    destruct (fromHexChar_digit c1 a H1) as [Ha Hda].
    destruct (fromHexChar_digit c2 b H2) as [Hb Hdb].
    destruct (nibbles a b Ha Hb) as (Hv & Hhi & Hlo).
    destruct (IH bs' eq_refl) as [Hbs Henc].
    split; [constructor; assumption|].
    rewrite EncodeToString_cons. cbn [string_map].
    rewrite <- Hda, <- Hdb, <- Henc.
    f_equal; [f_equal; exact Hhi | f_equal; f_equal; exact Hlo].
Qed.

(** X9.  What [decodeHex] returns for a field is a sequence of bytes, half
    as many as the field has characters, and writing them back in hex
    gives the field in lower case; [decodeHex] of the hex form of any
    bytes gives those bytes back.  The only error is the one that names
    the field. *)
Theorem X9_decodeHex_round_trip :
  (forall s name bs,
     decodeHex s name = Ok bs ->
     Forall is_byte bs
     /\ String.length s = (2 * length bs)%nat
     /\ hex.EncodeToString bs = string_map to_lower s)
  /\ (forall bs name,
        Forall is_byte bs -> decodeHex (hex.EncodeToString bs) name = Ok bs)
  /\ (forall s name e, decodeHex s name = Err e -> e = ErrNotHex name).
Proof.
  split; [|split].
  - intros s name bs H. unfold decodeHex in H.
    destruct (hex.DecodeString s) as [bs'|] eqn:Hd; [|discriminate].
    injection H as <-.
    destruct (decode_then_encode s bs' Hd) as [Hb He].
    split; [exact Hb|]. split; [apply DecodeString_length; exact Hd|].
    exact He.
  - intros bs name Hb. unfold decodeHex.
    rewrite (decode_encode bs Hb). reflexivity.
  - intros s name e H. unfold decodeHex in H.
    destruct (hex.DecodeString s); [discriminate|].
    injection H as <-. reflexivity.
Qed.

Lemma X9_decodeHex_round_trip_witness :
  Forall is_byte [171; 205]
  /\ String.length "AbcD" = (2 * length [171; 205])%nat
  /\ hex.EncodeToString [171; 205] = string_map to_lower "AbcD".
Proof.
  apply (proj1 X9_decodeHex_round_trip "AbcD"%string "serverSeed"%string).
  reflexivity.
Defined.

(** ** Seeds of unchecked length in the mixer *)

(** X10.  The mixer joins the two decoded seeds with a colon byte and does
    not check their lengths, so it cannot tell where one seed ends: for
    all byte sequences [s], [t], [u], the seeds [s] and [t:u] are mixed to
    the same combined seed as the seeds [s:t] and [u] (the player listed
    first being the one whose UID string does not sort after the other),
    and reports that differ in this way get the same result. *)
Theorem X10_seed_boundary_ambiguity (ua ub : Z) (s t u : list Z)
    (src1 src2 src3 src4 : string) :
  Forall is_byte s -> Forall is_byte t -> Forall is_byte u ->
  String.ltb (strconv.FormatInt ub) (strconv.FormatInt ua) = false ->
  let a := mkPlayerEntry ua (hex.EncodeToString s) src1 in
  let b := mkPlayerEntry ub (hex.EncodeToString (t ++ 58 :: u)) src2 in
  let a' := mkPlayerEntry ua (hex.EncodeToString (s ++ 58 :: t)) src3 in
  let b' := mkPlayerEntry ub (hex.EncodeToString u) src4 in
  combinedSeed a b = combinedSeed a' b'
  /\ forall fuel rep,
       Players rep = [a; b] ->
       Verify fuel (with_players rep [a'; b']) = Verify fuel rep.
Proof.
  intros Hs Ht Hu Hlt a b a' b'.
  assert (H58 : is_byte 58) by (unfold is_byte; lia).
  assert (Hc : combinedSeed a b = combinedSeed a' b').
  { rewrite !combinedSeed_canonical. unfold canonical.
    subst a b a' b'. cbn [UID]. rewrite Hlt. cbn [UID ClientSeed].
    unfold decodeHex.
    rewrite !decode_encode
      by (repeat first [assumption | apply Forall_app; split
                        | apply Forall_cons]).
    do 2 f_equal. rewrite <- !app_assoc. reflexivity. }
  split; [exact Hc|].
  intros fuel rep Hp. unfold Verify, with_players.
  cbn [Players Rolls ServerSeed ServerSeedHash]. rewrite Hp.
  cbn [length elem_at nth_error bind]. rewrite Hc. reflexivity.
Qed.

Lemma X10_seed_boundary_ambiguity_witness :
  combinedSeed (mkPlayerEntry 1001 "01" "player")
               (mkPlayerEntry 1002 "023a03" "player")
  = combinedSeed (mkPlayerEntry 1001 "013a02" "player")
                 (mkPlayerEntry 1002 "03" "player").
Proof.
  refine (proj1 (X10_seed_boundary_ambiguity 1001 1002 [1] [2] [3]
                   "player" "player" "player" "player" _ _ _ _)).
  - repeat constructor; unfold is_byte; lia.
  - repeat constructor; unfold is_byte; lia.
  - repeat constructor; unfold is_byte; lia.
  - vm_compute. reflexivity.
Defined.

(** ** The rejection loop *)

Lemma first_accepted (l : list Z) :
  Forall rejected l
  \/ exists pre v post, l = pre ++ v :: post /\ Forall rejected pre /\ v < 252.
Proof.
  induction l as [|x l [IH | (pre & v & post & -> & Hpre & Hv)]].
  - left. constructor.
  - destruct (Z_lt_le_dec x 252) as [Hx|Hx].
    + right. exists [], x, l. split; [reflexivity|]. split; [constructor|lia].
    + left. constructor; [exact Hx | exact IH].
  - destruct (Z_lt_le_dec x 252) as [Hx|Hx].
    + right. exists [], x, (pre ++ v :: post).
      split; [reflexivity|]. split; [constructor|lia].
    + right. exists (x :: pre), v, post.
      split; [reflexivity|]. split; [constructor; assumption | exact Hv].
Qed.

(** A rejected byte under the cursor costs one turn of the loop. *)
Lemma drawDie_rejected_step fuel key prefix g m x rest :
  (g_idx g < length (g_pool g))%nat ->
  pending key prefix g m = x :: rest -> rejected x ->
  drawDie (S fuel) key prefix g = drawDie fuel key prefix (advance g)
  /\ pending key prefix (advance g) m = rest.
Proof.
  intros Hin Hp Hx.
  destruct (nth_error (g_pool g) (g_idx g)) as [w|] eqn:Hw.
  2:{ apply nth_error_None in Hw. lia. }
  rewrite (pending_read _ _ _ _ _ Hw) in Hp. injection Hp as -> Hrest.
  rewrite (drawDie_read _ _ _ _ _ Hw).
  unfold rejected in Hx.
  replace (x <? 252) with false by (symmetry; apply Z.ltb_ge; exact Hx).
  auto.
Qed.

Lemma drawDie_all_rejected key prefix :
  forall fuel g m,
    length (g_pool g) = 32%nat -> (g_idx g <= 32)%nat ->
    (fuel <= length (pending key prefix g m))%nat ->
    Forall rejected (firstn fuel (pending key prefix g m)) ->
    drawDie fuel key prefix g = Timeout.
Proof.
  induction fuel as [|fuel IH]; intros g m Hl Hi Hlen Hall; [reflexivity|].
  assert (Hstep : forall g0 m0,
            length (g_pool g0) = 32%nat -> (g_idx g0 < 32)%nat ->
            (S fuel <= length (pending key prefix g0 m0))%nat ->
            Forall rejected (firstn (S fuel) (pending key prefix g0 m0)) ->
            drawDie (S fuel) key prefix g0 = Timeout).
  { intros g0 m0 Hl0 Hi0 Hlen0 Hall0.
    destruct (pending key prefix g0 m0) as [|x rest] eqn:Hp;
      [cbn in Hlen0; lia|].
    cbn [firstn] in Hall0. inversion Hall0 as [|? ? Hx Hrest]; subst.
    destruct (drawDie_rejected_step fuel key prefix g0 m0 x rest
                ltac:(lia) Hp Hx) as [-> Hp'].
    apply (IH (advance g0) m0).
    - exact Hl0.
    - cbn. lia.
    - rewrite Hp'. cbn [length] in Hlen0. lia.
    - rewrite Hp'. exact Hrest. }
  destruct (Nat.eq_dec (g_idx g) 32) as [Hend|Hin].
  - assert (Hge : (length (g_pool g) <= g_idx g)%nat) by lia.
    destruct m as [|m].
    { rewrite (pending_end _ _ _ Hge) in Hlen. cbn in Hlen. lia. }
    rewrite (pending_refill _ _ _ _ Hge) in Hlen, Hall.
    rewrite (drawDie_refill _ _ _ _ Hge).
    apply (Hstep (refill key prefix g) m);
      [apply block_at_length | cbn; lia | exact Hlen | exact Hall].
  - apply (Hstep g m); [exact Hl | lia | exact Hlen | exact Hall].
Qed.

(** X11.  The rejection loop of [drawDie] goes on exactly as long as the
    stream gives it bytes of 252 and above: with room for [fuel] turns it
    stops without a die if and only if the next [fuel] bytes, across block
    boundaries, are all rejected ones. *)
Theorem X11_draw_runs_on_rejected_bytes (fuel : nat) (key prefix : list Z)
    (g : gen) (m : nat) :
  length (g_pool g) = 32%nat -> (g_idx g <= 32)%nat ->
  (fuel <= length (pending key prefix g m))%nat ->
  (drawDie fuel key prefix g = Timeout <->
   Forall rejected (firstn fuel (pending key prefix g m))).
Proof.
  intros Hl Hi Hlen. split.
  - intros Ht.
    destruct (first_accepted (firstn fuel (pending key prefix g m)))
      as [Hall | (pre & v & post & Hsplit & Hpre & Hv)]; [exact Hall|].
    exfalso.
    assert (Hfl : (length pre < fuel)%nat).
    { pose proof (firstn_le_length fuel (pending key prefix g m)) as Hle.
      rewrite Hsplit, length_app in Hle. cbn [length] in Hle.
      pose proof (length_firstn fuel (pending key prefix g m)) as Hfn.
      rewrite Hsplit, length_app in Hfn. cbn [length] in Hfn. lia. }
    assert (Hp : pending key prefix g m
                 = pre ++ v :: (post ++ skipn fuel (pending key prefix g m))).
    { rewrite <- (firstn_skipn fuel (pending key prefix g m)) at 1.
      rewrite Hsplit, <- app_assoc. reflexivity. }
    destruct (drawDie_stream key prefix pre g m fuel v _ Hl Hi Hp Hpre Hv Hfl)
      as (g' & Hrun & _).
    congruence.
  - apply drawDie_all_rejected; assumption.
Qed.

(** The block at nonce 47 starts with the rejected byte 253: one turn is
    not enough for a die. *)
Lemma X11_draw_runs_on_rejected_bytes_witness :
  drawDie 1 sample_key sample_combined (mkGen 48 sample_block_47 0) = Timeout.
Proof.
  refine (proj2 (X11_draw_runs_on_rejected_bytes 1 sample_key sample_combined
                   (mkGen 48 sample_block_47 0) 0 _ _ _) _).
  - reflexivity.
  - cbn. lia.
  - cbn. lia.
  - repeat constructor. unfold rejected. lia.
Defined.

(** ** The nonce *)

(** A draw moves the nonce once for each block it fetches, at most one
    per turn of its loop. *)
Lemma drawDie_nonce key prefix :
  forall fuel g d g',
    drawDie fuel key prefix g = Ret (d, g') ->
    exists k, (k <= fuel)%nat /\ g_nonce g' = bump k (g_nonce g).
Proof.
  induction fuel as [|fuel IH]; intros g d g' H; [discriminate|].
  rewrite (drawDie_ready (S fuel)) in H.
  assert (Hr : exists k0, (k0 <= 1)%nat
                 /\ g_nonce (ready key prefix g) = bump k0 (g_nonce g)).
  { unfold ready. destruct (length (g_pool g) <=? g_idx g)%nat.
    - exists 1%nat. split; [lia | reflexivity].
    - exists 0%nat. split; [lia | reflexivity]. }
  destruct Hr as (k0 & Hk0 & Hn0).
  destruct (nth_error (g_pool (ready key prefix g))
                      (g_idx (ready key prefix g))) as [v|] eqn:Hv.
  - rewrite (drawDie_read _ _ _ _ _ Hv) in H.
    destruct (v <? 252).
    + injection H as <- <-. exists k0. split; [lia | exact Hn0].
    + destruct (IH _ _ _ H) as (k & Hk & Hn).
      cbn [advance g_nonce] in Hn. rewrite Hn0 in Hn.
      exists (k + k0)%nat. split; [lia|].
      rewrite Hn. unfold bump. rewrite Nat.iter_add. reflexivity.
  - exfalso. rewrite drawDie_S in H.
    replace (length (g_pool (ready key prefix g))
             <=? g_idx (ready key prefix g))%nat with false in H.
    + cbn [bind] in H. unfold elem_at in H. rewrite Hv in H. discriminate.
    + symmetry. apply Nat.leb_gt. unfold ready.
      destruct (Nat.leb_spec (length (g_pool g)) (g_idx g)); [|assumption].
      cbn [refill g_pool g_idx]. rewrite block_at_length. lia.
Qed.

(** X12.  Every roll uses up at least one nonce: the nonce [rollDice]
    leaves is the one it was given plus the number of blocks it
    generated, which is at least 1 and at most one per turn of its two
    rejection loops, reduced modulo 2^32.  So, short of 2^32 blocks, a
    roll never leaves the nonce it started from, and the next roll starts
    on a block that has not been used. *)
Theorem X12_roll_advances_nonce (fuel : nat) (key prefix : list Z)
    (nonce d1 d2 nonce' : Z) :
  rollDice fuel key prefix nonce = Ret (d1, d2, nonce') ->
  (exists k, (1 <= k <= 1 + 2 * fuel)%nat
             /\ nonce' = u32 (nonce + Z.of_nat k))
  /\ (0 <= nonce < 2 ^ 32 -> Z.of_nat (1 + 2 * fuel) < 2 ^ 32 ->
      nonce' <> nonce /\ 0 <= nonce' < 2 ^ 32).
Proof.
  intros H. rewrite rollDice_eq in H.
  destruct (drawDie fuel key prefix _) as [[e1 g1]| |] eqn:H1;
    cbn [bind] in H; try discriminate.
  destruct (drawDie fuel key prefix g1) as [[e2 g2]| |] eqn:H2;
    cbn [bind] in H; try discriminate.
  injection H as _ _ <-.
  destruct (drawDie_nonce _ _ _ _ _ _ H1) as (k1 & Hk1 & Hn1).
  destruct (drawDie_nonce _ _ _ _ _ _ H2) as (k2 & Hk2 & Hn2).
  cbn [g_nonce] in Hn1. rewrite Hn1, !bump_u32 in Hn2.
  assert (Hex : g_nonce g2 = u32 (nonce + Z.of_nat (1 + k1 + k2))).
  { rewrite Hn2. f_equal. lia. }
  split.
  - exists (1 + k1 + k2)%nat. split; [lia | exact Hex].
  - intros Hr Hf. rewrite Hex. unfold u32.
    set (k := Z.of_nat (1 + k1 + k2)) in *.
    assert (Hk : 1 <= k < 2 ^ 32) by lia.
    pose proof (Z.mod_pos_bound (nonce + k) (2 ^ 32) ltac:(lia)) as Hb.
    split; [|exact Hb].
    intros E.
    pose proof (Z.div_mod (nonce + k) (2 ^ 32) ltac:(lia)) as Hdm.
    rewrite E in Hdm.
    assert (Hq : (nonce + k) / 2 ^ 32 = 0 \/ (nonce + k) / 2 ^ 32 = 1).
    { assert (0 <= (nonce + k) / 2 ^ 32) by (apply Z.div_pos; lia).
      assert ((nonce + k) / 2 ^ 32 < 2)
        by (apply Z.div_lt_upper_bound; lia).
      lia. }
    destruct Hq as [Hq|Hq]; rewrite Hq in Hdm; lia.
Qed.

Lemma X12_roll_advances_nonce_witness :
  (exists k, (1 <= k <= 1 + 2 * 2)%nat /\ 48 = u32 (47 + Z.of_nat k))
  /\ (0 <= 47 < 2 ^ 32 -> Z.of_nat (1 + 2 * 2) < 2 ^ 32 ->
      48 <> 47 /\ 0 <= 48 < 2 ^ 32).
Proof.
  apply (X12_roll_advances_nonce 2 sample_key sample_combined 47 5 4 48).
  vm_compute. reflexivity.
Defined.
